(** * NarrativeAnnotation: the dictionary pre-processing pipeline and the
      MeSH tree-number classifier

    A shallow embedding of
    - [narrant/entity/meshontology.py]: the prefix table
      [MESH_TREE_TO_ENTITY_TYPE] and [tree_number_to_entity_type];
    - [narrant/entitylinking/dictpreprocess.py]: [find_untagged_ids],
      [add_doc_tagged_by_infos], and [main] with its closures
      [generate_tasks], [do_task], [consume_task], [shutdown_consumer].

    Python sets of document ids are [gset Z]; lists are lists; a call that
    may raise returns a [result]; the shared counter
    [multiprocessing.Value('i', 0)] is a C [int], written as a [Z] with
    its wrap-around. *)

From Stdlib Require Import ZArith Lia.
From stdpp Require Import base relations gmap sets list strings.

Open Scope Z_scope.
Open Scope string_scope.

(** ** Python exceptions and results *)

Inductive exn : Type :=
| KeyError (msg : string)
| FileExistsError (path : string)
| Exception (msg : string).

Inductive result (A : Type) : Type :=
| Return (a : A)
| Raise (e : exn).
Arguments Return {A} a.
Arguments Raise {A} e.

(** ** narrant/entity/meshontology.py *)

(** The entity-type constants the module imports from
    [narrant.entitylinking.enttypes], as an enumeration. *)
Inductive EntityType : Type :=
| DOSAGE_FORM | METHOD | DISEASE | VACCINE | HEALTH_STATUS | TISSUE | LAB_METHOD.

#[global] Instance EntityType_eq_dec : EqDecision EntityType.
Proof. solve_decision. Defined.

Definition MESH_TREE_TO_ENTITY_TYPE : list (string * EntityType) :=
  [ ("D20.215.894", VACCINE);
    ("D26.255", DOSAGE_FORM);
    ("E02.319.300", DOSAGE_FORM);
    ("E02.319.267", DOSAGE_FORM);
    ("J01.637.512.600", DOSAGE_FORM);
    ("J01.637.512.850", DOSAGE_FORM);
    ("J01.637.512.925", DOSAGE_FORM);
    ("E", METHOD);
    ("E", LAB_METHOD);
    ("E", DOSAGE_FORM);
    ("C", DISEASE);
    ("F03", DISEASE);
    ("F02", DISEASE);
    ("M01", HEALTH_STATUS);
    ("A10", TISSUE) ].

(** [s.startswith(p)] *)
Definition startswith (s p : string) : bool := String.prefix p s.

(** The loop of [tree_number_to_entity_type]: one pass over the table,
    [hits.append(et)] for every entry whose prefix matches. *)
Fixpoint collect_hits (tree_number : string) (table : list (string * EntityType))
    (hits : list EntityType) : list EntityType :=
  match table with
  | [] => hits
  | (tn, et) :: table' =>
      if startswith tree_number tn
      then collect_hits tree_number table' (hits ++ [et])
      else collect_hits tree_number table' hits
  end.

Definition tree_number_to_entity_type (tree_number : string) : result (list EntityType) :=
  let hits := collect_hits tree_number MESH_TREE_TO_ENTITY_TYPE [] in
  match hits with
  | _ :: _ => Return hits
  | [] => Raise (KeyError ("No entity type for tree number " ++ tree_number ++ " found"))
  end.

(** ** narrant/entitylinking/dictpreprocess.py: data *)

(** [kgextractiontoolbox.document.document.TaggedEntity]: a typed entity
    mention; [document] is the id of the document it belongs to. *)
Record TaggedEntity : Type := mkTaggedEntity {
  document : Z;
  start : Z;
  end_ : Z;
  text : string;
  ent_type : string;
  ent_id : string
}.

#[global] Instance TaggedEntity_eq_dec : EqDecision TaggedEntity.
Proof. solve_decision. Defined.

(** [TaggedDocument]: [doc_id] is the attribute [id], [has_content] the
    result of the method [has_content()], [tags] the attribute [tags]. *)
Record TaggedDocument : Type := mkTaggedDocument {
  doc_id : Z;
  has_content : bool;
  tags : list TaggedEntity
}.

(** The tagger object [metatag] as the workers use it:
    [metatag.tag_doc(in_doc, consider_sections=...)] and the document
    method [clean_tags()], either of which may raise; with the class
    attributes [__name__] and [__version__]. *)
Record PharmDictTagger : Type := mkPharmDictTagger {
  __name__ : string;
  __version__ : string;
  tag_doc : TaggedDocument -> bool -> result TaggedDocument;
  clean_tags : TaggedDocument -> result TaggedDocument
}.

(** The tagger object as the consumer uses it: the buffer
    [partial_tag_inserts] of tags waiting for insertion and the batches
    inserted so far into the tag table, one per bulk insert, oldest first. *)
Record TagStore : Type := mkTagStore {
  partial_tag_inserts : list TaggedEntity;
  tag_table : list (list TaggedEntity)
}.

(** Modelled from the spec: [metatag.base_insert_tags_partial(tags)],
    inherited from a class that is not among the sources; it "appends
    its Tags to an in-memory buffer". *)
Definition base_insert_tags_partial (tags : list TaggedEntity) (m : TagStore) : TagStore :=
  {| partial_tag_inserts := partial_tag_inserts m ++ tags;
     tag_table := tag_table m |}.

(** Modelled from the spec: [metatag.bulk_insert_partial_tags()],
    inherited from a class that is not among the sources; it "flushes the
    buffer via one bulk-insert and clears it". *)
Definition bulk_insert_partial_tags (m : TagStore) : TagStore :=
  {| partial_tag_inserts := [];
     tag_table := tag_table m ++ [partial_tag_inserts m] |}.

Definition BULK_INSERT_AFTER_K : Z := 1000.

(** A C [int] as [multiprocessing.Value('i', _)] stores it: ctypes keeps
    the low 32 bits, read back as a signed number. *)
Definition c_int (z : Z) : Z := (z + 2 ^ 31) mod 2 ^ 32 - 2 ^ 31.

Definition INT_MAX : Z := 2 ^ 31 - 1.

(** The state [consume_task] and [shutdown_consumer] close over:
    [docs_done.value] and the consumer's side of [metatag]. *)
Record Consumer : Type := mkConsumer {
  docs_done : Z;
  metatag : TagStore
}.

Definition new_consumer : Consumer :=
  {| docs_done := 0; metatag := {| partial_tag_inserts := []; tag_table := [] |} |}.

(** ** The closures of [main] *)

(** [generate_tasks]: both branches filter the supplied documents (from
    the input file, or from the database) by [t_doc.id in document_ids and
    t_doc.has_content()].  A [TaggedDocument] object is always truthy. *)
Definition generate_tasks (document_ids : gset Z) (supply : list TaggedDocument)
    : list TaggedDocument :=
  filter (fun t_doc => bool_decide (doc_id t_doc ∈ document_ids) && has_content t_doc) supply.

(** [do_task]: [try: ... return tagged_doc.tags] with
    [except Exception: ... return []]. *)
Definition do_task (mt : PharmDictTagger) (consider_sections : bool)
    (in_doc : TaggedDocument) : list TaggedEntity :=
  match tag_doc mt in_doc consider_sections with
  | Return tagged_doc =>
      match clean_tags mt tagged_doc with
      | Return cleaned => tags cleaned
      | Raise _ => []
      end
  | Raise _ => []
  end.

(** Lines 214-217 of [consume_task]: what the call does to [metatag]
    before the flush test. *)
Definition consume_buffer (document_ids_in_db : gset Z) (tags : list TaggedEntity)
    (m : TagStore) : TagStore :=
  if (0 <? length tags)%nat then
    match tags !! 0%nat with
    | Some tag0 =>
        let doc_id := document tag0 in
        if bool_decide (doc_id ∈ document_ids_in_db) && negb (bool_decide (tags = []))
        then base_insert_tags_partial tags m
        else m
    | None => m
    end
  else m.

Definition consume_task (document_ids_in_db : gset Z) (tags : list TaggedEntity)
    (c : Consumer) : Consumer :=
  let done := c_int (docs_done c + 1) in
  let m := consume_buffer document_ids_in_db tags (metatag c) in
  {| docs_done := done;
     metatag := if (done mod BULK_INSERT_AFTER_K =? 0)%Z
                then bulk_insert_partial_tags m
                else m |}.

Definition shutdown_consumer (c : Consumer) : Consumer :=
  {| docs_done := docs_done c; metatag := bulk_insert_partial_tags (metatag c) |}.

(** ** The producer, the workers and the consumer

    [ProducerWorker], [Worker] and [ConsumerWorker] of
    [narrant.util.multiprocessing] are not among the sources.  They run as
    separate processes that share two FIFO queues, so a run is an
    interleaving of their steps: a step relation on the state of the
    queues and of the processes. *)

(** What travels on a queue: a task or a result, or the closing signal. *)
Inductive Msg (A : Type) : Type :=
| Item (a : A)
| Closing.
Arguments Item {A} a.
Arguments Closing {A}.

(** A worker waits for the task queue, or holds what it will put on the
    result queue next (the result of the task it took, or the closing
    signal it forwards), or has left its loop. *)
Inductive WorkerState : Type :=
| Waiting
| Emitting (m : Msg (list TaggedEntity))
| Exited.

Record Pipeline : Type := mkPipeline {
  producer_todo : list (Msg TaggedDocument);
  task_queue : list (Msg TaggedDocument);
  worker_pool : list WorkerState;
  result_queue : list (Msg (list TaggedEntity));
  closings_seen : nat;
  consumer : Consumer;
  consumer_done : bool
}.

Section Stages.
Variable no_workers : nat.
Variable max_tasks : nat.
Variable do_task_cb : TaggedDocument -> list TaggedEntity.
Variable consume_cb : list TaggedEntity -> Consumer -> Consumer.
Variable shutdown_cb : Consumer -> Consumer.

(** What a worker holds after taking [m] from the task queue. *)
Definition worker_take (m : Msg TaggedDocument) : Msg (list TaggedEntity) :=
  match m with
  | Item in_doc => Item (do_task_cb in_doc)
  | Closing => Closing
  end.

(** Where a worker goes after putting [m] on the result queue. *)
Definition worker_after (m : Msg (list TaggedEntity)) : WorkerState :=
  match m with
  | Item _ => Waiting
  | Closing => Exited
  end.

(** Modelled from the spec: the steps of the three stages, which are not
    among the sources.
    - Producer: "wraps each as a Task, and enqueues it.  Enqueue blocks
      once the queue reaches a configured maximum in-flight count.  After
      input is exhausted, emits one closing signal per worker".
    - Worker: "dequeue (blocking) one Task or a closing signal.  On a
      closing signal, forward it downstream and exit.  On a Task, invoke
      the tagging function [...] Exactly one Result is emitted per
      dequeued Task."
    - Consumer: "Pulls Results until N closing signals have been
      observed.  For each real Result [...]  On observing all N closing
      signals, performs one unconditional final flush [...], then signals
      completion to the Coordinator." *)
Inductive step : Pipeline -> Pipeline -> Prop :=
| step_produce m todo tq ws rq seen c fin :
    (length tq < max_tasks)%nat ->
    step (mkPipeline (m :: todo) tq ws rq seen c fin)
         (mkPipeline todo (tq ++ [m]) ws rq seen c fin)
| step_take i m todo tq ws rq seen c fin :
    ws !! i = Some Waiting ->
    step (mkPipeline todo (m :: tq) ws rq seen c fin)
         (mkPipeline todo tq (<[i := Emitting (worker_take m)]> ws) rq seen c fin)
| step_emit i m todo tq ws rq seen c fin :
    ws !! i = Some (Emitting m) ->
    step (mkPipeline todo tq ws rq seen c fin)
         (mkPipeline todo tq (<[i := worker_after m]> ws) (rq ++ [m]) seen c fin)
| step_consume tags todo tq ws rq seen c :
    (seen < no_workers)%nat ->
    step (mkPipeline todo tq ws (Item tags :: rq) seen c false)
         (mkPipeline todo tq ws rq seen (consume_cb tags c) false)
| step_closing todo tq ws rq seen c :
    (seen < no_workers)%nat ->
    step (mkPipeline todo tq ws (Closing :: rq) seen c false)
         (mkPipeline todo tq ws rq (S seen) c false)
| step_shutdown todo tq ws rq seen c :
    (no_workers <= seen)%nat ->
    step (mkPipeline todo tq ws rq seen c false)
         (mkPipeline todo tq ws rq seen (shutdown_cb c) true).

(** The state after [producer.start()], [w.start()] for each worker and
    [consumer.start()]: the producer has every task of [tasks] and then
    one closing signal per worker still to put. *)
Definition launch (tasks : list TaggedDocument) (c : Consumer) : Pipeline :=
  {| producer_todo := map Item tasks ++ replicate no_workers Closing;
     task_queue := [];
     worker_pool := replicate no_workers Waiting;
     result_queue := [];
     closings_seen := 0;
     consumer := c;
     consumer_done := false |}.

(** [consumer.join()] returns in [p]: some interleaving leads from
    [launch tasks c] to [p], where the consumer has left its loop and shut down. *)
Definition joined (tasks : list TaggedDocument) (c : Consumer) (p : Pipeline) : Prop :=
  rtc step (launch tasks c) p /\ consumer_done p = true.
End Stages.

(** ** The world around [main] *)

(** The parsed command line ([args]); [workers] is an [int] and may be
    zero or negative, [workdir] and [input] default to [None]. *)
Record Args : Type := mkArgs {
  tag : list string;
  collection : string;
  workdir : option string;
  skip_load : bool;
  workers : Z;
  yes_force : bool;
  force_tag_all : bool;
  input : option string;
  sections : bool
}.

(** What [main] reads from its environment and from the libraries it
    calls: the paths that exist (the names [os.path.exists] is true of),
    [os.path.abspath], which resolves a name against the current
    directory, the answer typed at the prompt, the
    documents and ids the document source and the database hold, the
    constants of [narrant.entitylinking.enttypes], the tagger that
    [PharmDictTagger(ent_types, kwargs)] builds, and the clock.  Paths
    are plain names: the file system has no symbolic links here and no
    name goes through a parent directory, so a file is reached by its
    absolute name and by names relative to the current directory. *)
Record Env : Type := mkEnv {
  paths : gset string;
  abspath : string -> string;
  mkdtemp : string;
  typed_answer : string;
  get_document_ids : string -> gset Z;
  already_tagged : gset Z;
  get_document_ids_for_collection : gset Z;
  document_bulk_load : string -> gset Z -> gset Z;
  read_pubtator_documents : string -> list TaggedDocument;
  iterate_over_all_documents_in_collection : bool -> list TaggedDocument;
  DALL : list string;
  TAG_TYPE_MAPPING : gmap string string;
  new_tagger : list string -> PharmDictTagger;
  datetime_now : nat -> Z
}.

(** Python's truth value of an optional string argument: [None] and the
    empty string are false. *)
Definition truthy (o : option string) : bool :=
  match o with
  | Some s => negb (String.eqb s "")
  | None => false
  end.

Definition path_join (a b : string) : string := a ++ "/" ++ b.

(** Whether a path ends in the separator; of the absolute paths that
    [os.path.abspath] and [tempfile.mkdtemp] return only the root of the
    file system, "/", does. *)
Fixpoint ends_with_sep (p : string) : bool :=
  match p with
  | EmptyString => false
  | String ch EmptyString => Ascii.eqb ch (Ascii.ascii_of_nat 47)
  | String _ rest => ends_with_sep rest
  end.

(** The names of the directory tree at [root]: [root] itself and what
    continues it after a separator, so that everything absolute is below
    "/" and "/work2" is not below "/work". *)
Definition below (root p : string) : bool :=
  String.eqb p root
  || String.prefix (if ends_with_sep root then root else root ++ "/") p.

(** A path lies in the tree at [root] by its name or by what [resolve],
    that is [os.path.abspath], makes of its name: a name relative to the
    current directory lies where it resolves to. *)
Definition in_tree (resolve : string -> string) (root p : string) : bool :=
  below root p || below root (resolve p).

(** [shutil.rmtree(root)]: every path in the tree at [root] is gone. *)
Definition rmtree (resolve : string -> string) (root : string) (fs : gset string)
    : gset string :=
  filter (fun p => in_tree resolve root p = false) fs.

(** The directories [os.makedirs(p)] makes sure exist: [p] and every
    leading directory of it. *)
Fixpoint leading_dirs (seen rest : string) : list string :=
  match rest with
  | EmptyString => [seen]
  | String ch rest' =>
      (if Ascii.eqb ch (Ascii.ascii_of_nat 47) && negb (String.eqb seen "") then [seen] else [])
        ++ leading_dirs (seen ++ String ch EmptyString) rest'
  end.

(** [os.makedirs(p)] raises [FileExistsError] when [p] exists. *)
Definition makedirs (p : string) (fs : gset string) : result (gset string) :=
  if bool_decide (p ∈ fs) then Raise (FileExistsError p)
  else Return (fs ∪ list_to_set (leading_dirs "" p)).

(** Modelled from the spec: [get_untagged_doc_ids_by_tagger] of
    kgextractiontoolbox, the "resumability filter": of [target_ids],
    the ids not yet tagged by this tagger and version. *)
Definition get_untagged_doc_ids_by_tagger (env : Env) (target_ids : gset Z) : gset Z :=
  target_ids ∖ already_tagged env.

Definition find_untagged_ids (env : Env) (fs : gset string) (in_file : string) : gset Z :=
  if negb (bool_decide (in_file ∈ fs)) then ∅
  else
    let in_ids := get_document_ids env in_file in
    ∅ ∪ get_untagged_doc_ids_by_tagger env in_ids.

(** A row of [DocTaggedBy], the RunRecord. *)
Record DocTaggedByRow : Type := mkDocTaggedByRow {
  document_id : Z;
  document_collection : string;
  tagger_name : string;
  tagger_version : string;
  row_ent_type : string;
  date_inserted : Z
}.

(** [sorted(...)] on strings, by insertion. *)
Fixpoint insert_sorted (s : string) (l : list string) : list string :=
  match l with
  | [] => [s]
  | x :: l' => if String.ltb s x then s :: l else x :: insert_sorted s l'
  end.

Definition sorted (l : list string) : list string :=
  foldr insert_sorted [] l.

(** [add_doc_tagged_by_infos]: the rows it hands to
    [DocTaggedBy.bulk_insert_values_into_table], one per element of
    [document_ids], in the order the set is iterated. *)
Definition add_doc_tagged_by_infos (env : Env) (document_ids : gset Z) (collection : string)
    (ent_types : list string) (tagger_name tagger_version : string) : list DocTaggedByRow :=
  let ent_type_str := String.concat "|" (sorted ent_types) in
  imap (fun progress_i doc_id =>
          {| document_id := doc_id;
             document_collection := collection;
             tagger_name := tagger_name;
             tagger_version := tagger_version;
             row_ent_type := ent_type_str;
             date_inserted := datetime_now env progress_i |})
       (elements document_ids).

(** ** [main] *)

(** How a call of [main] ends: [exit(code)], a normal return, or an
    exception that nothing catches. *)
Inductive Exit : Type :=
| SysExit (code : Z)
| Returned
| Raised (e : exn).

(** What a call of [main] leaves behind: how it ended, the paths that
    exist, whether the tagger was built and prepared, the batches
    bulk-inserted into the tag table, [docs_done.value] (if the counter
    was created) and the rows inserted into [DocTaggedBy]. *)
Record Outcome : Type := mkOutcome {
  exit_status : Exit;
  paths_after : gset string;
  tagger_initialised : bool;
  tag_batches : list (list TaggedEntity);
  progress_counter : option Z;
  run_records : list DocTaggedByRow
}.

(** The local variables of [main] once line 169 is reached. *)
Record Ready : Type := mkReady {
  root_dir : string;
  ready_paths : gset string;
  ent_types : list string;
  input_file_given : bool;
  document_ids : gset Z;
  document_ids_in_db : gset Z
}.

Definition yes_answers : list string := ["y"; "Y"; "j"; "J"; "yes"; "Yes"].

(** Lines 97-116: the root and log directories.  On the left, the run
    ends here; on the right, [root_dir] and the paths that now exist. *)
Definition create_directories (args : Args) (env : Env)
    : (Exit * gset string) + (string * gset string) :=
  let given := truthy (workdir args) in
  let root_dir := if given then abspath env (default "" (workdir args)) else mkdtemp env in
  let fs := if given then paths env else paths env ∪ {[ mkdtemp env ]} in
  let log_dir := abspath env (path_join root_dir "log") in
  let cleared : (Exit * gset string) + gset string :=
    if given && bool_decide (root_dir ∈ fs) then
      if negb (yes_force args) && negb (bool_decide (typed_answer env ∈ yes_answers))
      then inl (SysExit 0, fs)
      else
        match makedirs root_dir (rmtree (abspath env) root_dir fs) with
        | Return fs' => inr fs'
        | Raise e => inl (Raised e, rmtree (abspath env) root_dir fs)
        end
    else inr fs in
  match cleared with
  | inl stop => inl stop
  | inr fs' =>
      match makedirs log_dir fs' with
      | Return fs'' => inr (root_dir, fs'')
      | Raise e => inl (Raised e, fs')
      end
  end.

(** [[TAG_TYPE_MAPPING[x] for x in args.tag]] *)
Fixpoint lookup_all (m : gmap string string) (keys : list string) : result (list string) :=
  match keys with
  | [] => Return []
  | x :: keys' =>
      match m !! x with
      | None => Raise (KeyError x)
      | Some v =>
          match lookup_all m keys' with
          | Return vs => Return (v :: vs)
          | Raise e => Raise e
          end
      end
  end.

(** Line 124 *)
Definition select_ent_types (args : Args) (env : Env) : result (list string) :=
  if bool_decide ("DA" ∈ tag args) then Return (DALL env)
  else lookup_all (TAG_TYPE_MAPPING env) (tag args).

(** Lines 126-163: [input_file_given], [document_ids] (the work set) and
    [document_ids_in_db]. *)
Definition load_document_ids (args : Args) (env : Env) (fs : gset string)
    : bool * gset Z * gset Z :=
  if truthy (input args) then
    let in_file := default "" (input args) in
    let document_ids := find_untagged_ids env fs in_file in
    let document_ids_in_db :=
      if negb (skip_load args)
      then document_bulk_load env in_file (get_document_ids_for_collection env)
      else get_document_ids_for_collection env in
    (true, document_ids, document_ids_in_db)
  else
    let document_ids_in_db := get_document_ids_for_collection env in
    let document_ids := document_ids_in_db in
    let todo_ids : gset Z := ∅ in
    let document_ids :=
      if negb (force_tag_all args)
      then todo_ids ∪ get_untagged_doc_ids_by_tagger env document_ids
      else document_ids in
    (false, document_ids, document_ids_in_db).

(** Lines 97-169: either the run ends before the tagger is built, or the
    pipeline is ready to start. *)
Definition prepare (args : Args) (env : Env) : Outcome + Ready :=
  match create_directories args env with
  | inl (how, fs) => inl (mkOutcome how fs false [] None [])
  | inr (root_dir, fs) =>
      match select_ent_types args env with
      | Raise e => inl (mkOutcome (Raised e) fs false [] None [])
      | Return ent_types =>
          let '(input_file_given, document_ids, document_ids_in_db) :=
            load_document_ids args env fs in
          let number_of_docs := size document_ids in
          if (number_of_docs =? 0)%nat
          then inl (mkOutcome (SysExit 0) fs false [] None [])
          else inr (mkReady root_dir fs ent_types input_file_given
                            document_ids document_ids_in_db)
      end
  end.

(** The documents [generate_tasks()] iterates over in this run: those of
    the input file, or those of the collection in the database. *)
Definition main_supply (args : Args) (env : Env) (r : Ready) : list TaggedDocument :=
  if input_file_given r
  then read_pubtator_documents env (default "" (input args))
  else iterate_over_all_documents_in_collection env (sections args).

(** The tasks [generate_tasks()] yields in this run. *)
Definition main_tasks (args : Args) (env : Env) (r : Ready) : list TaggedDocument :=
  generate_tasks (document_ids r) (main_supply args env r).

Definition max_tasks : nat := Z.to_nat 100000.

(** [range(args.workers)] is empty for a count below one. *)
Definition worker_count (args : Args) : nat := Z.to_nat (workers args).

(** Lines 238-247, after [consumer.join()] has returned with the
    consumer in state [c]. *)
Definition finalize (args : Args) (env : Env) (r : Ready) (c : Consumer) : Outcome :=
  let mt := new_tagger env (ent_types r) in
  let document_ids := document_ids r ∩ document_ids_in_db r in
  let rows := add_doc_tagged_by_infos env document_ids (collection args) (ent_types r)
                (__name__ mt) (__version__ mt) in
  let fs := if negb (truthy (workdir args))
            then rmtree (abspath env) (root_dir r) (ready_paths r)
            else ready_paths r in
  mkOutcome Returned fs true (tag_table (metatag c)) (Some (docs_done c)) rows.

(** The pipeline of a run that is ready: its steps, and its joined states. *)
Definition main_step (args : Args) (env : Env) (r : Ready) : Pipeline -> Pipeline -> Prop :=
  step (worker_count args) max_tasks
       (do_task (new_tagger env (ent_types r)) (sections args))
       (consume_task (document_ids_in_db r))
       shutdown_consumer.

Definition main_joined (args : Args) (env : Env) (r : Ready) (p : Pipeline) : Prop :=
  joined (worker_count args) max_tasks
         (do_task (new_tagger env (ent_types r)) (sections args))
         (consume_task (document_ids_in_db r))
         shutdown_consumer
         (main_tasks args env r) new_consumer p.

(** [main args env o]: a call of [main] can end with outcome [o]. *)
Inductive main (args : Args) (env : Env) : Outcome -> Prop :=
| main_stops o :
    prepare args env = inl o ->
    main args env o
| main_returns r p :
    prepare args env = inr r ->
    main_joined args env r p ->
    main args env (finalize args env r (consumer p)).

(** ** narrant/entity/meshontology.py: the ontology index *)

(** A Python [dict] whose iteration order matters: its items, in insertion
    order, with pairwise distinct keys. *)
Fixpoint dict_get {V : Type} (d : list (string * V)) (k : string) : option V :=
  match d with
  | [] => None
  | (k', v) :: d' => if String.eqb k' k then Some v else dict_get d' k
  end.

Definition MESH_TREE_NAMES : list (string * string) :=
  [ ("A", "Anatomy");
    ("B", "Organisms");
    ("C", "Diseases");
    ("D", "Chemicals and Drugs");
    ("E", "Analytical, Diagnostic and Therapeutic Techniques, and Equipment");
    ("F", "Psychiatry and Psychology");
    ("G", "Phenomena and Processes");
    ("H", "Disciplines and Occupations");
    ("I", "Anthropology, Education, Sociology, and Social Phenomena");
    ("J", "Technology, Industry, and Agriculture");
    ("K", "Humanities");
    ("L", "Information Science");
    ("M", "Named Groups");
    ("N", "Health Care");
    ("V", "Publication Characteristics");
    ("Z", "Geographicals") ].

Definition get_name_for_tree (tree_start_character : string) : result string :=
  match dict_get MESH_TREE_NAMES tree_start_character with
  | Some name => Return name
  | None => Raise (KeyError tree_start_character)
  end.

#[global] Instance EntityType_countable : Countable EntityType.
Proof.
  refine (inj_countable'
            (fun e => match e with
                      | DOSAGE_FORM => 0 | METHOD => 1 | DISEASE => 2 | VACCINE => 3
                      | HEALTH_STATUS => 4 | TISSUE => 5 | LAB_METHOD => 6
                      end%nat)
            (fun n => match n with
                      | 0 => DOSAGE_FORM | 1 => METHOD | 2 => DISEASE | 3 => VACCINE
                      | 4 => HEALTH_STATUS | 5 => TISSUE | _ => LAB_METHOD
                      end%nat) _).
  by intros [].
Defined.

(** The two dictionaries of a [MeSHOntology] object: [treeno2desc] maps a
    tree number to (descriptor id, heading) and is iterated, so it keeps
    its insertion order; [descriptor2treeno] maps a descriptor id to the
    list of its tree numbers. *)
Record MeSHOntology : Type := mkMeSHOntology {
  treeno2desc : list (string * (string * string));
  descriptor2treeno : gmap string (list string)
}.

Definition _clear_index (self : MeSHOntology) : MeSHOntology :=
  {| treeno2desc := []; descriptor2treeno := ∅ |}.

(** The message renders the tuple without Python's escaping of quotes. *)
Definition _add_descriptor_for_tree_no (self : MeSHOntology)
    (descriptor_id descriptor_heading tree_no : string) : result MeSHOntology :=
  match dict_get (treeno2desc self) tree_no with
  | Some (d_id, d_heading) =>
      Raise (KeyError ("tree number is already mapped to: ('" ++ d_id ++ "', '"
                         ++ d_heading ++ "')"))
  | None =>
      Return {| treeno2desc :=
                  treeno2desc self ++ [(tree_no, (descriptor_id, descriptor_heading))];
                descriptor2treeno := descriptor2treeno self |}
  end.

(** The loop of [find_descriptors_start_with_tree_no] over
    [self.treeno2desc.items()], with its [results] and [visited]. *)
Fixpoint find_loop (tree_no : string) (items : list (string * (string * string)))
    (results : list (string * string)) (visited : gset string)
    : list (string * string) :=
  match items with
  | [] => results
  | (d_tree_no, (d_id, d_heading)) :: items' =>
      if bool_decide (d_id ∉ visited) then
        if startswith d_tree_no tree_no
        then find_loop tree_no items' (results ++ [(d_id, d_heading)]) ({[ d_id ]} ∪ visited)
        else find_loop tree_no items' results visited
      else find_loop tree_no items' results visited
  end.

Definition find_descriptors_start_with_tree_no (self : MeSHOntology) (tree_no : string)
    : list (string * string) :=
  find_loop tree_no (treeno2desc self) [] ∅.

Definition get_descriptor_for_tree_no (self : MeSHOntology) (tree_no : string)
    : result (string * string) :=
  match dict_get (treeno2desc self) tree_no with
  | Some desc => Return desc
  | None => Raise (KeyError tree_no)
  end.

Definition _add_tree_number_for_descriptor (self : MeSHOntology)
    (descriptor_id tree_no : string) : MeSHOntology :=
  {| treeno2desc := treeno2desc self;
     descriptor2treeno :=
       match descriptor2treeno self !! descriptor_id with
       | Some tree_nos => <[descriptor_id := (tree_nos ++ [tree_no])%list]> (descriptor2treeno self)
       | None => <[descriptor_id := [tree_no]]> (descriptor2treeno self)
       end |}.

Definition get_tree_numbers_for_descriptor (self : MeSHOntology) (descriptor_id : string)
    : result (list string) :=
  match descriptor2treeno self !! descriptor_id with
  | Some tree_nos => Return tree_nos
  | None => Raise (KeyError descriptor_id)
  end.

(** The loop of [get_tree_numbers_with_entity_type_for_descriptor]:
    [except KeyError: pass] lets any other exception through. *)
Fixpoint relevant_loop (tree_nos relevant_tree_numbers : list string)
    : result (list string) :=
  match tree_nos with
  | [] => Return relevant_tree_numbers
  | tn :: tree_nos' =>
      match tree_number_to_entity_type tn with
      | Return (_ :: _) => relevant_loop tree_nos' (relevant_tree_numbers ++ [tn])
      | Return [] => relevant_loop tree_nos' relevant_tree_numbers
      | Raise (KeyError _) => relevant_loop tree_nos' relevant_tree_numbers
      | Raise e => Raise e
      end
  end.

Definition get_tree_numbers_with_entity_type_for_descriptor (self : MeSHOntology)
    (descriptor_id : string) : result (list string) :=
  match descriptor2treeno self !! descriptor_id with
  | None => Raise (KeyError descriptor_id)
  | Some tree_nos =>
      match relevant_loop tree_nos [] with
      | Raise e => Raise e
      | Return [] =>
          Raise (KeyError ("Descriptor " ++ descriptor_id ++ " has no relevant tree numbers"))
      | Return relevant_tree_numbers => Return relevant_tree_numbers
      end
  end.

(** The loop of [get_entity_types_for_descriptor] with its set
    [ent_types]. *)
Fixpoint ent_types_loop (tree_nos : list string) (ent_types : gset EntityType)
    : result (gset EntityType) :=
  match tree_nos with
  | [] => Return ent_types
  | tn :: tree_nos' =>
      match tree_number_to_entity_type tn with
      | Return ets => ent_types_loop tree_nos' (foldl (fun acc et => {[ et ]} ∪ acc) ent_types ets)
      | Raise (KeyError _) => ent_types_loop tree_nos' ent_types
      | Raise e => Raise e
      end
  end.

(** [list(ent_types)]: the elements of the set, in no particular order.
    The message leaves out the rendering of [tree_nos]. *)
Definition get_entity_types_for_descriptor (self : MeSHOntology) (descriptor_id : string)
    : result (list EntityType) :=
  match get_tree_numbers_for_descriptor self descriptor_id with
  | Raise e => Raise e
  | Return tree_nos =>
      match ent_types_loop tree_nos ∅ with
      | Raise e => Raise e
      | Return ent_types =>
          if (size ent_types =? 0)%nat
          then Raise (KeyError ("Cannot decode entity type from MeSH " ++ descriptor_id))
          else Return (elements ent_types)
      end
  end.

(** A descriptor as [__build_index_from_mesh] reads it from [MeSHDB]:
    [desc.unique_id], [desc.heading] and [desc.tree_numbers]. *)
Record MeSHDescriptor : Type := mkMeSHDescriptor {
  unique_id : string;
  heading : string;
  tree_numbers : list string
}.

(** [for tn in desc.tree_numbers: ...] *)
Fixpoint index_tree_numbers (self : MeSHOntology) (desc : MeSHDescriptor)
    (tns : list string) : result MeSHOntology :=
  match tns with
  | [] => Return self
  | tn :: tns' =>
      match _add_descriptor_for_tree_no self (unique_id desc) (heading desc) tn with
      | Raise e => Raise e
      | Return self' =>
          index_tree_numbers (_add_tree_number_for_descriptor self' (unique_id desc) tn)
                             desc tns'
      end
  end.

(** [for idx, desc in enumerate(descs): ...] *)
Fixpoint index_descriptors (self : MeSHOntology) (descs : list MeSHDescriptor)
    : result MeSHOntology :=
  match descs with
  | [] => Return self
  | desc :: descs' =>
      match index_tree_numbers self desc (tree_numbers desc) with
      | Raise e => Raise e
      | Return self' => index_descriptors self' descs'
      end
  end.

(** [__build_index_from_mesh], on the descriptors [mesh.get_all_descs()]
    returned. *)
Definition __build_index_from_mesh (self : MeSHOntology) (descs : list MeSHDescriptor)
    : result MeSHOntology :=
  index_descriptors (_clear_index self) descs.

Definition retrieve_subdescriptors (self : MeSHOntology) (decriptor_id : string)
    : result (gset (string * string)) :=
  match get_tree_numbers_for_descriptor self decriptor_id with
  | Raise e => Raise e
  | Return tree_nos =>
      Return
        (foldl (fun sub_descriptors t_n =>
                  foldl (fun sub_descriptors res => {[ res ]} ∪ sub_descriptors)
                        sub_descriptors
                        (find_descriptors_start_with_tree_no self t_n))
               ∅ tree_nos)
  end.

(** ['.' in tn] *)
Fixpoint contains_dot (tn : string) : bool :=
  match tn with
  | EmptyString => false
  | String ch tn' => Ascii.eqb ch (Ascii.ascii_of_nat 46) || contains_dot tn'
  end.

(** [tn.rpartition('.')[0]]: what stands before the last dot, and the
    empty string when there is no dot. *)
Fixpoint rpartition_head (tn : string) : string :=
  match tn with
  | EmptyString => EmptyString
  | String ch tn' => if contains_dot tn' then String ch (rpartition_head tn') else EmptyString
  end.

(** [while '.' in tn: tn = tn.rpartition('.')[0]; ...add(self.treeno2desc[tn])],
    for at most [fuel] rounds. *)
Fixpoint super_while (fuel : nat) (self : MeSHOntology) (tn : string)
    (super_descriptors : gset (string * string)) : result (gset (string * string)) :=
  match fuel with
  | O => Return super_descriptors
  | S fuel' =>
      if contains_dot tn then
        let tn := rpartition_head tn in
        match dict_get (treeno2desc self) tn with
        | None => Raise (KeyError tn)
        | Some desc => super_while fuel' self tn ({[ desc ]} ∪ super_descriptors)
        end
      else Return super_descriptors
  end.

(** [for tn in tree_nos: while ...]; each round of the [while] shortens
    [tn], so its length bounds the rounds. *)
Fixpoint super_loop (self : MeSHOntology) (tree_nos : list string)
    (super_descriptors : gset (string * string)) : result (gset (string * string)) :=
  match tree_nos with
  | [] => Return super_descriptors
  | tn :: tree_nos' =>
      match super_while (String.length tn) self tn super_descriptors with
      | Raise e => Raise e
      | Return super_descriptors' => super_loop self tree_nos' super_descriptors'
      end
  end.

Definition retrieve_superdescriptors (self : MeSHOntology) (decriptor_id : string)
    : result (gset (string * string)) :=
  match get_tree_numbers_for_descriptor self decriptor_id with
  | Raise e => Raise e
  | Return tree_nos => super_loop self tree_nos ∅
  end.

(** * What the properties are stated with *)

(** The entries of [table] whose prefix starts [tree_number]. *)
Definition matching (tree_number : string) (table : list (string * EntityType))
    : list (string * EntityType) :=
  filter (fun e => String.prefix e.1 tree_number = true) table.

(** Every tag [metatag] has taken into its buffer so far: those already
    bulk-inserted, then those still waiting in [partial_tag_inserts]. *)
Definition accepted (m : TagStore) : list TaggedEntity :=
  (concat (tag_table m) ++ partial_tag_inserts m)%list.

(** The test of line 216 as a proposition: the result is not empty and
    the document id of its first tag is a document id of the database. *)
Definition storable (document_ids_in_db : gset Z) (tags : list TaggedEntity) : Prop :=
  exists tag0 rest, tags = tag0 :: rest /\ document tag0 ∈ document_ids_in_db.

(** Weights, to count workers and messages by kind. *)
Definition holds_item (w : WorkerState) : nat :=
  match w with Emitting (Item _) => 1 | _ => 0 end.
Definition alive (w : WorkerState) : nat :=
  match w with Exited => 0 | _ => 1 end.
Definition taker (w : WorkerState) : nat :=
  match w with Waiting | Emitting (Item _) => 1 | _ => 0 end.
Definition item_weight {A} (m : Msg A) : nat :=
  match m with Item _ => 1 | Closing => 0 end.
Definition closing_weight {A} (m : Msg A) : nat :=
  match m with Item _ => 0 | Closing => 1 end.

(** The tasks not yet taken are in the task queue or still with the
    producer, ahead of one closing signal per worker that has not met
    one; each task is in exactly one place (not yet taken, held as a
    result by a worker, on the result queue, or counted by
    [docs_done]); every closing signal and every flush is accounted
    for. *)
Record Inv (no_workers : nat) (tasks : list TaggedDocument) (p : Pipeline) : Prop := mkInv {
  inv_pool : length (worker_pool p) = no_workers;
  inv_done_nonneg : 0 <= docs_done (consumer p);
  inv_stream : exists ds,
    (task_queue p ++ producer_todo p
     = (Item <$> ds) ++ replicate (sum_list_with taker (worker_pool p)) Closing)%list
    /\ ((sum_list_with taker (worker_pool p) < no_workers)%nat -> ds = [])
    /\ Z.of_nat (length ds + sum_list_with holds_item (worker_pool p)
                 + sum_list_with item_weight (result_queue p))
       + docs_done (consumer p) = Z.of_nat (length tasks);
  inv_closings :
    (closings_seen p + sum_list_with closing_weight (result_queue p)
     + sum_list_with alive (worker_pool p) = no_workers)%nat;
  inv_tail :
    sum_list_with alive (worker_pool p) = 0%nat ->
    result_queue p = [] \/ last (result_queue p) = Some Closing;
  inv_flushes :
    Z.of_nat (length (tag_table (metatag (consumer p))))
    = docs_done (consumer p) / BULK_INSERT_AFTER_K
      + (if consumer_done p then 1 else 0);
  inv_finished : consumer_done p = true -> (no_workers <= closings_seen p)%nat
}.

(** A result that is the result of a task. *)
Definition of_task (do_cb : TaggedDocument -> list TaggedEntity)
    (tasks : list TaggedDocument) (tags : list TaggedEntity) : Prop :=
  exists in_doc, in_doc ∈ tasks /\ tags = do_cb in_doc.

(** Every task, result and tag in the pipeline comes from [tasks]. *)
Record Traced (do_cb : TaggedDocument -> list TaggedEntity)
    (tasks : list TaggedDocument) (p : Pipeline) : Prop := mkTraced {
  traced_tasks : forall in_doc,
    Item in_doc ∈ (task_queue p ++ producer_todo p)%list -> in_doc ∈ tasks;
  traced_held : forall tags,
    Emitting (Item tags) ∈ worker_pool p -> of_task do_cb tasks tags;
  traced_results : forall tags,
    Item tags ∈ result_queue p -> of_task do_cb tasks tags;
  traced_accepted : forall t,
    t ∈ accepted (metatag (consumer p)) ->
    exists in_doc, in_doc ∈ tasks /\ t ∈ do_cb in_doc
}.

(** The consumer after the results of [tasks], taken in order. *)
Definition consume_all (do_cb : TaggedDocument -> list TaggedEntity)
    (consume_cb : list TaggedEntity -> Consumer -> Consumer)
    (tasks : list TaggedDocument) (c : Consumer) : Consumer :=
  foldl (fun c in_doc => consume_cb (do_cb in_doc) c) c tasks.

(** The [try] block of [do_task] raises: in [tag_doc], or in
    [clean_tags] on the document it returned. *)
Definition tagging_raises (mt : PharmDictTagger) (consider_sections : bool)
    (in_doc : TaggedDocument) : Prop :=
  (exists e, tag_doc mt in_doc consider_sections = Raise e)
  \/ (exists tagged_doc e,
        tag_doc mt in_doc consider_sections = Return tagged_doc
        /\ clean_tags mt tagged_doc = Raise e).

(** ** Scenarios *)

(** A tagger that finds one drug mention in every document, except that
    it raises on document 2. *)
Definition scenario_tag (i : Z) : TaggedEntity :=
  mkTaggedEntity i 0 7 "aspirin" "Drug" "CHEMBL25".

Definition scenario_tagger : PharmDictTagger :=
  {| __name__ := "PharmDictTagger";
     __version__ := "1.0.0";
     tag_doc := fun in_doc _ =>
       if (doc_id in_doc =? 2)%Z then Raise (Exception "malformed document")
       else Return (mkTaggedDocument (doc_id in_doc) (has_content in_doc)
                                     [scenario_tag (doc_id in_doc)]);
     clean_tags := fun tagged_doc => Return tagged_doc |}.

(** A collection that holds the documents [docs], of which [tagged] are
    already tagged; [files] are the paths that exist and [in_ids] the
    document ids of the input file. *)
Definition scenario_env (files : gset string) (in_ids : gset Z)
    (docs : list TaggedDocument) (tagged : gset Z) : Env :=
  {| paths := files;
     abspath := fun p => p;
     mkdtemp := "/tmp/tmpk3v9";
     typed_answer := "n";
     get_document_ids := fun _ => in_ids;
     already_tagged := tagged;
     get_document_ids_for_collection := list_to_set (doc_id <$> docs);
     document_bulk_load := fun _ ids => ids ∪ in_ids;
     read_pubtator_documents := fun _ => [];
     iterate_over_all_documents_in_collection := fun _ => docs;
     DALL := ["Disease"; "Drug"];
     TAG_TYPE_MAPPING := ∅;
     new_tagger := fun _ => scenario_tagger;
     datetime_now := fun i => Z.of_nat i |}.

Definition scenario_args (n : Z) (dir file : option string) (force : bool) : Args :=
  {| tag := ["DA"];
     collection := "CORPUS1";
     workdir := dir;
     skip_load := false;
     workers := n;
     yes_force := true;
     force_tag_all := force;
     input := file;
     sections := false |}.

(** The state in which the one-worker-at-a-time schedule of a ready run
    ends. *)
Definition scheduled (args : Args) (env : Env) (r : Ready) : Pipeline :=
  mkPipeline [] [] (replicate (worker_count args) Exited) [] (worker_count args)
    (shutdown_consumer
       (consume_all (do_task (new_tagger env (ent_types r)) (sections args))
                    (consume_task (document_ids_in_db r))
                    (main_tasks args env r) new_consumer))
    true.

(** Documents 1, 2 and 3 of CORPUS1, two workers; the tagging of
    document 2 raises. *)
Definition corpus1 : list TaggedDocument :=
  [mkTaggedDocument 1 true []; mkTaggedDocument 2 true []; mkTaggedDocument 3 true []].
Definition corpus1_args : Args := scenario_args 2 None None false.
Definition corpus1_env : Env := scenario_env ∅ ∅ corpus1 ∅.
Definition corpus1_ready : Ready :=
  {| root_dir := "/tmp/tmpk3v9";
     ready_paths := {[ "/tmp/tmpk3v9" ]} ∪ {[ "/tmp"; "/tmp/tmpk3v9"; "/tmp/tmpk3v9/log" ]};
     ent_types := ["Disease"; "Drug"];
     input_file_given := false;
     document_ids := {[ 1; 2; 3 ]};
     document_ids_in_db := {[ 1; 2; 3 ]} |}.

Definition corpus1_outcome : Outcome :=
  finalize corpus1_args corpus1_env corpus1_ready
           (consumer (scheduled corpus1_args corpus1_env corpus1_ready)).

(** 2500 documents and two workers. *)
Definition bulk_tasks : list TaggedDocument :=
  (fun i => mkTaggedDocument (Z.of_nat i) true []) <$> seq 0 2500.
Definition bulk_ids : gset Z := list_to_set (doc_id <$> bulk_tasks).
Definition bulk_end : Pipeline :=
  mkPipeline [] [] (replicate 2 Exited) [] 2
    (shutdown_consumer
       (consume_all (do_task scenario_tagger false) (consume_task bulk_ids)
                    bulk_tasks new_consumer))
    true.

(** An empty collection: nothing to do. *)
Definition empty_args : Args := scenario_args 2 None None false.
Definition empty_env : Env := scenario_env ∅ ∅ [] ∅.
Definition empty_paths : gset string :=
  {[ "/tmp/tmpk3v9" ]} ∪ {[ "/tmp"; "/tmp/tmpk3v9"; "/tmp/tmpk3v9/log" ]}.
Definition empty_outcome : Outcome :=
  {| exit_status := SysExit 0;
     paths_after := empty_paths;
     tagger_initialised := false;
     tag_batches := [];
     progress_counter := None;
     run_records := [] |}.

(** A collection whose one document has no content; one worker. *)
Definition contentless_args : Args := scenario_args 1 None None false.
Definition contentless_env : Env :=
  scenario_env ∅ ∅ [mkTaggedDocument 1 false []] ∅.
Definition contentless_ready : Ready :=
  {| root_dir := "/tmp/tmpk3v9";
     ready_paths := empty_paths;
     ent_types := ["Disease"; "Drug"];
     input_file_given := false;
     document_ids := {[ 1 ]};
     document_ids_in_db := {[ 1 ]} |}.

(** An input file whose one document id is already tagged, with the
    force flag set. *)
Definition forced_args : Args := scenario_args 1 None (Some "in.pubtator") true.
Definition forced_env : Env := scenario_env {[ "in.pubtator" ]} {[ 1 ]} [] {[ 1 ]}.

(** CORPUS1 again, tagged in a directory given with [--workdir]. *)
Definition workdir_args : Args := scenario_args 2 (Some "/work") None false.
Definition workdir_ready : Ready :=
  {| root_dir := "/work";
     ready_paths := {[ "/work"; "/work/log" ]};
     ent_types := ["Disease"; "Drug"];
     input_file_given := false;
     document_ids := {[ 1; 2; 3 ]};
     document_ids_in_db := {[ 1; 2; 3 ]} |}.
Definition workdir_outcome : Outcome :=
  finalize workdir_args corpus1_env workdir_ready
           (consumer (scheduled workdir_args corpus1_env workdir_ready)).

(** ** For the ontology index *)

(** [a] is what stands before some dot of [tn]. *)
Definition dot_prefix (a tn : string) : Prop :=
  exists rest, tn = a ++ "." ++ rest.

(** The items [__build_index_from_mesh] files for a descriptor, and for a
    list of descriptors. *)
Definition items_of (desc : MeSHDescriptor) (tns : list string)
    : list (string * (string * string)) :=
  (fun tn => (tn, (unique_id desc, heading desc))) <$> tns.

Definition all_items (descs : list MeSHDescriptor) : list (string * (string * string)) :=
  concat ((fun desc => items_of desc (tree_numbers desc)) <$> descs).

(** The tree numbers filed under a descriptor id: none for an unknown id. *)
Definition tree_nos_of (m : gmap string (list string)) (descriptor_id : string) : list string :=
  default [] (m !! descriptor_id).

(** The two dictionaries of an index say the same: a tree number is
    mapped to a descriptor id exactly when it is listed under that id,
    and no tree number is mapped twice. *)
Record consistent (self : MeSHOntology) : Prop := mkConsistent {
  consistent_keys : NoDup (treeno2desc self).*1;
  consistent_desc : forall tn d_id d_heading,
    (tn, (d_id, d_heading)) ∈ treeno2desc self ->
    tn ∈ tree_nos_of (descriptor2treeno self) d_id;
  consistent_treeno : forall d_id tn,
    tn ∈ tree_nos_of (descriptor2treeno self) d_id ->
    exists d_heading, (tn, (d_id, d_heading)) ∈ treeno2desc self
}.

(** [tree_number_to_entity_type tn] returns (rather than raises). *)
Definition typed (tn : string) : Prop :=
  matching tn MESH_TREE_TO_ENTITY_TYPE <> [].

#[global] Instance typed_dec tn : Decision (typed tn).
Proof. unfold typed. apply _. Defined.

(** What [consume_task] takes into the buffer of a result. *)
Definition kept (document_ids_in_db : gset Z) (tags : list TaggedEntity)
    : list TaggedEntity :=
  match tags with
  | tag0 :: _ => if bool_decide (document tag0 ∈ document_ids_in_db) then tags else []
  | [] => []
  end.

(** The working directory of a run: the one given, or a fresh one. *)
Definition working_directory (args : Args) (env : Env) : string :=
  if truthy (workdir args)
  then abspath env (default "" (workdir args))
  else mkdtemp env.

(** A chain of three descriptors, one below the other. *)
Definition chain_descs : list MeSHDescriptor :=
  [ mkMeSHDescriptor "D009750" "Nutritional and Metabolic Diseases" ["C18"];
    mkMeSHDescriptor "D008659" "Metabolic Diseases" ["C18.452"];
    mkMeSHDescriptor "D002239" "Carbohydrate Metabolism, Inborn Errors" ["C18.452.394"] ].

Definition chain_index : MeSHOntology :=
  {| treeno2desc := all_items chain_descs;
     descriptor2treeno :=
       {[ "D009750" := ["C18"]; "D008659" := ["C18.452"]; "D002239" := ["C18.452.394"] ]} |}.


(** A run in an existing directory, with the prompt answered "n". *)
Definition declined_args : Args :=
  {| tag := ["DA"]; collection := "CORPUS1"; workdir := Some "/work";
     skip_load := false; workers := 2; yes_force := false; force_tag_all := false;
     input := None; sections := false |}.
Definition declined_env : Env := scenario_env {[ "/work"; "/work/old" ]} ∅ corpus1 ∅.


Close Scope string_scope.

(** * Properties *)

(** ** The MeSH tree-number classifier *)

Section MeSHOntology.
Implicit Types (tree_number : string) (table : list (string * EntityType)).

Lemma collect_hits_filter tree_number table hits :
  collect_hits tree_number table hits = (hits ++ (matching tree_number table).*2)%list.
Proof.
  revert hits. induction table as [|[tn et] table IH]; intros hits; simpl.
  - by rewrite app_nil_r.
  - unfold matching, startswith. rewrite filter_cons. simpl.
    destruct (String.prefix tn tree_number) eqn:Hp.
    + rewrite decide_True by done. rewrite IH. simpl.
      by rewrite <- app_assoc.
    + rewrite decide_False by done. apply IH.
Qed.

Lemma table_split :
  MESH_TREE_TO_ENTITY_TYPE =
    (take 7 MESH_TREE_TO_ENTITY_TYPE
      ++ [("E"%string, METHOD); ("E"%string, LAB_METHOD); ("E"%string, DOSAGE_FORM)]
      ++ drop 10 MESH_TREE_TO_ENTITY_TYPE)%list.
Proof. reflexivity. Qed.

Lemma matching_E tree_number :
  String.prefix "E" tree_number = true ->
  [METHOD; LAB_METHOD; DOSAGE_FORM]
    `sublist_of` (matching tree_number MESH_TREE_TO_ENTITY_TYPE).*2.
Proof.
  intros HE. rewrite table_split. unfold matching.
  rewrite !filter_app, !fmap_app.
  apply sublist_inserts_l, sublist_inserts_r.
  rewrite !filter_cons, filter_nil. simpl.
  rewrite !decide_True by done. done.
Qed.

(** C10: [tree_number_to_entity_type] returns the entity types of exactly
    the table entries whose prefix starts the tree number, in table
    order; a tree number that starts with "E" yields METHOD, LAB_METHOD
    and DOSAGE_FORM among them, in that order; and it raises [KeyError]
    if and only if no entry of the table matches. *)
Theorem tree_number_to_entity_type_prefix_table tree_number :
  let hits := (matching tree_number MESH_TREE_TO_ENTITY_TYPE).*2 in
  (match tree_number_to_entity_type tree_number with
   | Return l => l = hits /\ hits <> []
   | Raise e => hits = [] /\ exists msg, e = KeyError msg
   end)
  /\ (String.prefix "E" tree_number = true ->
      exists l, tree_number_to_entity_type tree_number = Return l
                /\ [METHOD; LAB_METHOD; DOSAGE_FORM] `sublist_of` l)
  /\ ((exists e, tree_number_to_entity_type tree_number = Raise e)
      <-> forall tn et, (tn, et) ∈ MESH_TREE_TO_ENTITY_TYPE ->
                        String.prefix tn tree_number = false).
Proof.
  intros hits.
  assert (Hrun : tree_number_to_entity_type tree_number =
                 match hits with
                 | _ :: _ => Return hits
                 | [] => Raise (KeyError ("No entity type for tree number "
                                            ++ tree_number ++ " found"))
                 end).
  { unfold tree_number_to_entity_type. by rewrite collect_hits_filter. }
  assert (Hnone : hits = [] <->
                  forall tn et, (tn, et) ∈ MESH_TREE_TO_ENTITY_TYPE ->
                                String.prefix tn tree_number = false).
  { unfold hits, matching. split.
    - intros Hnil tn et Hin. apply fmap_nil_inv in Hnil.
      destruct (String.prefix tn tree_number) eqn:Hp; [|done].
      assert ((tn, et) ∈ filter (fun e => String.prefix e.1 tree_number = true)
                                MESH_TREE_TO_ENTITY_TYPE) as Hf
        by (apply list_elem_of_filter; done).
      rewrite Hnil in Hf. by apply not_elem_of_nil in Hf.
    - intros Hall. destruct (filter _ _) as [|[tn et] rest] eqn:Hf; [done|].
      assert ((tn, et) ∈ filter (fun e => String.prefix e.1 tree_number = true)
                                MESH_TREE_TO_ENTITY_TYPE) as Hin
        by (rewrite Hf; left).
      apply list_elem_of_filter in Hin as [Hp Hin]. simpl in Hp.
      rewrite (Hall _ _ Hin) in Hp. done. }
  split; [|split].
  - rewrite Hrun. destruct hits; [eauto|done].
  - intros HE. pose proof (matching_E _ HE) as Hsub. fold hits in Hsub.
    rewrite Hrun. destruct hits as [|x l]; [|eauto].
    apply sublist_nil_r in Hsub. done.
  - rewrite <- Hnone, Hrun. destruct hits; split; intros H; eauto; try done.
    by destruct H.
Qed.
End MeSHOntology.

(** ** The consumer: [consume_task] and [shutdown_consumer] *)

Section Consumer.
Variable document_ids_in_db : gset Z.
Implicit Types (tags : list TaggedEntity) (c : Consumer) (m : TagStore).

Lemma c_int_small z : - 2 ^ 31 <= z <= INT_MAX -> c_int z = z.
Proof.
  unfold c_int, INT_MAX. intros Hz.
  rewrite Z.mod_small by lia. lia.
Qed.

Lemma accepted_bulk_insert m :
  accepted (bulk_insert_partial_tags m) = accepted m.
Proof.
  unfold accepted, bulk_insert_partial_tags. simpl.
  rewrite concat_app. simpl. by rewrite !app_nil_r.
Qed.

Lemma consume_buffer_cons tag0 rest m :
  consume_buffer document_ids_in_db (tag0 :: rest) m =
    if bool_decide (document tag0 ∈ document_ids_in_db)
    then base_insert_tags_partial (tag0 :: rest) m
    else m.
Proof.
  unfold consume_buffer. cbn [length Nat.ltb Nat.leb lookup list_lookup].
  rewrite (bool_decide_eq_false_2 (tag0 :: rest = [])) by done.
  simpl. by rewrite andb_true_r.
Qed.

Lemma consume_buffer_nil m : consume_buffer document_ids_in_db [] m = m.
Proof. reflexivity. Qed.

Lemma accepted_consume_task tags c :
  accepted (metatag (consume_task document_ids_in_db tags c)) =
  accepted (consume_buffer document_ids_in_db tags (metatag c)).
Proof.
  unfold consume_task. simpl.
  destruct (_ =? _)%Z; [apply accepted_bulk_insert | done].
Qed.

Lemma accepted_base_insert tags m :
  accepted (base_insert_tags_partial tags m) = (accepted m ++ tags)%list.
Proof. unfold accepted. simpl. by rewrite app_assoc. Qed.

Lemma storable_dec tags :
  storable document_ids_in_db tags \/ ~ storable document_ids_in_db tags.
Proof.
  destruct tags as [|tag0 rest].
  - right. intros (? & ? & ? & _). done.
  - destruct (decide (document tag0 ∈ document_ids_in_db)) as [Hin|Hout].
    + left. by exists tag0, rest.
    + right. intros (t & r & [= <- <-] & Hin). done.
Qed.

Lemma accepted_consume_storable tags c :
  storable document_ids_in_db tags ->
  accepted (metatag (consume_task document_ids_in_db tags c))
  = (accepted (metatag c) ++ tags)%list.
Proof.
  intros (tag0 & rest & -> & Hin).
  rewrite accepted_consume_task, consume_buffer_cons.
  rewrite bool_decide_eq_true_2 by done. apply accepted_base_insert.
Qed.

Lemma accepted_consume_not_storable tags c :
  ~ storable document_ids_in_db tags ->
  accepted (metatag (consume_task document_ids_in_db tags c)) = accepted (metatag c).
Proof.
  intros Hno. rewrite accepted_consume_task.
  destruct tags as [|tag0 rest]; [done|].
  rewrite consume_buffer_cons.
  destruct (decide (document tag0 ∈ document_ids_in_db)) as [Hin|Hout].
  - exfalso. apply Hno. by exists tag0, rest.
  - by rewrite bool_decide_eq_false_2.
Qed.

(** C5: the tags of a result enter the insert buffer if and only if the
    result is not empty and the document id it carries is a document
    id of the database; and every result, buffered or not, increments
    the progress counter (a C [int]: by one below [INT_MAX]). *)
Theorem consume_task_buffers_iff_storable tags c :
  let c' := consume_task document_ids_in_db tags c in
  ((tags <> [] /\ accepted (metatag c') = (accepted (metatag c) ++ tags)%list)
     <-> storable document_ids_in_db tags)
  /\ (~ storable document_ids_in_db tags -> accepted (metatag c') = accepted (metatag c))
  /\ docs_done c' = c_int (docs_done c + 1)
  /\ (- 2 ^ 31 <= docs_done c + 1 <= INT_MAX -> docs_done c' = docs_done c + 1).
Proof.
  intros c'. split; [|split; [|split]].
  - split.
    + intros [Hne Happ]. destruct (storable_dec tags) as [|Hno]; [done|].
      unfold c' in Happ. rewrite accepted_consume_not_storable in Happ by done.
      apply (f_equal length) in Happ. rewrite length_app in Happ.
      destruct tags; [done|]. simpl in Happ. lia.
    + intros Hs. split.
      * destruct Hs as (? & ? & -> & _). done.
      * by apply accepted_consume_storable.
  - apply accepted_consume_not_storable.
  - reflexivity.
  - intros Hz. unfold c'. simpl. by apply c_int_small.
Qed.

(** C9: for a non-empty result the aggregator reads the document id off
    the first tag alone, and that one membership test decides for all the
    tags of the result, whatever documents the other tags name. *)
Theorem consume_task_gates_on_first_tag tag0 rest c :
  let c' := consume_task document_ids_in_db (tag0 :: rest) c in
  accepted (metatag c') =
    if bool_decide (document tag0 ∈ document_ids_in_db)
    then (accepted (metatag c) ++ tag0 :: rest)%list
    else accepted (metatag c).
Proof.
  intros c'. unfold c'. case_bool_decide as Hin.
  - apply accepted_consume_storable. by exists tag0, rest.
  - apply accepted_consume_not_storable.
    intros (t & r & [= <- <-] & Hin'). done.
Qed.
End Consumer.

(** ** The pipeline: what every interleaving preserves *)

Lemma sum_list_with_insert {A} (f : A -> nat) (l : list A) i x y :
  l !! i = Some x ->
  (sum_list_with f (<[i := y]> l) + f x = sum_list_with f l + f y)%nat.
Proof.
  revert i. induction l as [|a l IH]; intros [|i] Hi; simplify_eq/=.
  - lia.
  - specialize (IH _ Hi). lia.
Qed.

Lemma sum_list_with_le {A} (f g : A -> nat) (l : list A) :
  (forall x, f x <= g x)%nat -> (sum_list_with f l <= sum_list_with g l)%nat.
Proof.
  intros Hfg. induction l as [|a l IH]; simpl; [lia|].
  specialize (Hfg a). lia.
Qed.

Lemma stream_head_item {A} (d : A) q ds k :
  Item d :: q = ((Item <$> ds) ++ replicate k Closing)%list ->
  exists ds', ds = d :: ds' /\ q = ((Item <$> ds') ++ replicate k Closing)%list.
Proof.
  destruct ds as [|d' ds']; simpl.
  - destruct k; simpl; intros ?; simplify_eq.
  - intros ?; simplify_eq. eauto.
Qed.

Lemma stream_head_closing {A} (q : list (Msg A)) ds k :
  Closing :: q = ((Item <$> ds) ++ replicate k Closing)%list ->
  ds = [] /\ exists k', k = S k' /\ q = replicate k' Closing.
Proof.
  destruct ds as [|d' ds']; simpl.
  - destruct k as [|k']; simpl; intros ?; simplify_eq. eauto.
  - intros ?; simplify_eq.
Qed.

Lemma tag_table_consume_buffer db tags m :
  tag_table (consume_buffer db tags m) = tag_table m.
Proof.
  destruct tags as [|tag0 rest]; [done|].
  rewrite consume_buffer_cons. by case_bool_decide.
Qed.

Lemma flush_count_step d :
  0 <= d ->
  (d + 1) / BULK_INSERT_AFTER_K =
  d / BULK_INSERT_AFTER_K + (if ((d + 1) mod BULK_INSERT_AFTER_K =? 0)%Z then 1 else 0).
Proof.
  unfold BULK_INSERT_AFTER_K. intros Hd.
  destruct (Z.eqb_spec ((d + 1) mod 1000) 0) as [Hm|Hm];
    Z.div_mod_to_equations; lia.
Qed.

Section Pipeline.
Variables (no_workers cap : nat).
Variable do_cb : TaggedDocument -> list TaggedEntity.
Variable document_ids_in_db : gset Z.
Variable tasks : list TaggedDocument.

Abbreviation pstep :=
  (step no_workers cap do_cb (consume_task document_ids_in_db) shutdown_consumer).

Lemma Inv_launch : Inv no_workers tasks (launch no_workers tasks new_consumer).
Proof.
  split; simpl.
  - apply length_replicate.
  - lia.
  - exists tasks. split; [|split].
    + f_equal. f_equal. induction no_workers; simpl; auto.
    + intros Hlt. exfalso. revert Hlt. clear.
      induction no_workers; simpl; lia.
    +         assert (sum_list_with holds_item (replicate no_workers Waiting) = 0%nat) as ->
        by (clear; induction no_workers; simpl; auto).
      lia.
  - clear. induction no_workers; simpl; lia.
  - intros _. by left.
  - reflexivity.
  - done.
Qed.

Hypothesis tasks_fit : Z.of_nat (length tasks) <= INT_MAX.

Ltac reweigh Hw y :=
  pose proof (sum_list_with_insert taker _ _ _ y Hw);
  pose proof (sum_list_with_insert holds_item _ _ _ y Hw);
  pose proof (sum_list_with_insert alive _ _ _ y Hw);
  pose proof (sum_list_with_in _ alive _ (list_elem_of_lookup_2 _ _ _ Hw));
  simpl in *.

Lemma Inv_step p q : Inv no_workers tasks p -> pstep p q -> Inv no_workers tasks q.
Proof.
  intros [Hpool Hnn (ds & Hstream & Hlate & Hcount) Hclo Htail Hfl Hfin] Hstep.
  destruct Hstep as
    [ m todo tq ws rq seen c fin Hcap
    | i m todo tq ws rq seen c fin Hw
    | i m todo tq ws rq seen c fin Hw
    | tags todo tq ws rq seen c Hseen
    | todo tq ws rq seen c Hseen
    | todo tq ws rq seen c Hseen ]; simpl in *.
  - (* the producer puts [m] *)
    split; simpl; auto.
    exists ds. by rewrite <- app_assoc.
  - (* worker [i] takes [m] *)
    reweigh Hw (Emitting (worker_take do_cb m)).
    destruct m as [d|]; simpl in *.
    + apply stream_head_item in Hstream as (ds' & -> & Hstream').
      split; simpl.
      * by rewrite length_insert.
      * done.
      * exists ds'. replace (sum_list_with taker (<[i:=_]> ws))
          with (sum_list_with taker ws) by lia.
        split; [done|]. split; [intros Hlt; by specialize (Hlate Hlt)|].
        simpl in Hcount. lia.
      * lia.
      * intros Hz. lia.
      * done.
      * done.
    + apply stream_head_closing in Hstream as (-> & k' & Hk & Hstream').
      split; simpl.
      * by rewrite length_insert.
      * done.
      * exists []. replace (sum_list_with taker (<[i:=_]> ws)) with k' by lia.
        split; [done|]. split; [done|]. simpl in *. lia.
      * lia.
      * intros Hz. lia.
      * done.
      * done.
  - (* worker [i] puts [m] *)
    reweigh Hw (worker_after m).
    destruct m as [r|]; simpl in *.
    + split; simpl.
      * by rewrite length_insert.
      * done.
      * exists ds. replace (sum_list_with taker (<[i:=_]> ws))
          with (sum_list_with taker ws) by lia.
        split; [done|]. split; [done|].
        rewrite sum_list_with_app. simpl. lia.
      * rewrite sum_list_with_app. simpl. lia.
      * intros Hz. lia.
      * done.
      * done.
    + split; simpl.
      * by rewrite length_insert.
      * done.
      * exists ds. replace (sum_list_with taker (<[i:=_]> ws))
          with (sum_list_with taker ws) by lia.
        split; [done|]. split; [done|].
        rewrite sum_list_with_app. simpl. lia.
      * rewrite sum_list_with_app. simpl. lia.
      * intros _. right. apply last_snoc.
      * done.
      * done.
  - (* the consumer takes a result *)
    assert (Hinc : c_int (docs_done c + 1) = docs_done c + 1).
    { apply c_int_small. unfold INT_MAX in *. lia. }
    split; simpl; rewrite ?Hinc.
    + done.
    + lia.
    + exists ds. split; [done|]. split; [done|]. lia.
    + lia.
    + intros Hz. specialize (Htail Hz) as [?|Hlast]; [done|].
      destruct rq as [|x rq']; [simplify_eq/=|]. right.
      by rewrite last_cons_cons in Hlast.
    + rewrite flush_count_step by done.
      destruct (_ =? _)%Z; simpl;
        rewrite ?length_app, tag_table_consume_buffer; simpl; lia.
    + done.
  - (* the consumer takes a closing signal *)
    split; simpl.
    + done.
    + done.
    + exists ds. split; [done|]. split; [done|]. lia.
    + lia.
    + intros Hz. specialize (Htail Hz) as [?|Hlast]; [done|].
      destruct rq as [|x rq']; [by left|]. right.
      by rewrite last_cons_cons in Hlast.
    + done.
    + done.
  - (* the consumer shuts down *)
    split; simpl; auto.
    + exists ds. done.
    + rewrite length_app. simpl. lia.
Qed.
End Pipeline.

(** ** The pipeline: a run that joins always exists *)

Section Schedule.
Variables (no_workers cap : nat).
Variable do_cb : TaggedDocument -> list TaggedEntity.
Variable consume_cb : list TaggedEntity -> Consumer -> Consumer.
Variable shutdown_cb : Consumer -> Consumer.
Hypothesis cap_pos : (1 <= cap)%nat.

Abbreviation sstep := (step no_workers cap do_cb consume_cb shutdown_cb).

(** One worker serves the tasks one at a time: put, take, emit, consume. *)
Lemma run_tasks tasks rest ws c :
  ws !! 0%nat = Some Waiting ->
  (0 < no_workers)%nat ->
  rtc sstep (mkPipeline ((Item <$> tasks) ++ rest) [] ws [] 0 c false)
            (mkPipeline rest [] ws [] 0 (consume_all do_cb consume_cb tasks c) false).
Proof.
  intros Hw Hn. revert c. induction tasks as [|d tasks IH]; intros c; simpl.
  - reflexivity.
  - eapply rtc_l.
    { apply step_produce. simpl. lia. }
    eapply rtc_l.
    { simpl. apply (step_take _ _ _ _ _ 0%nat). exact Hw. }
    eapply rtc_l.
    { apply (step_emit _ _ _ _ _ 0%nat (Item (do_cb d))).
      apply list_lookup_insert_eq. by eapply lookup_lt_Some. }
    simpl. rewrite list_insert_insert_eq, list_insert_id by done.
    eapply rtc_l.
    { apply step_consume. exact Hn. }
    apply IH.
Qed.

(** Then the closing signals, one worker after the other. *)
Lemma run_closings k j c :
  (j + k = no_workers)%nat ->
  rtc sstep
    (mkPipeline (replicate k Closing) []
                (replicate j Exited ++ replicate k Waiting) [] j c false)
    (mkPipeline [] [] (replicate no_workers Exited) [] no_workers c false).
Proof.
  revert j. induction k as [|k IH]; intros j Hjk; simpl.
  - rewrite app_nil_r. replace j with no_workers by lia. reflexivity.
  - assert (Hj : forall x : WorkerState,
               (replicate j Exited ++ x :: replicate k Waiting) !! j = Some x).
    { intros x. rewrite lookup_app_r by (rewrite length_replicate; lia).
      rewrite length_replicate, Nat.sub_diag. done. }
    assert (Hins : forall x y : WorkerState,
               <[j := y]> (replicate j Exited ++ x :: replicate k Waiting)
               = (replicate j Exited ++ y :: replicate k Waiting)%list).
    { intros x y. rewrite insert_app_r_alt by (rewrite length_replicate; lia).
      rewrite length_replicate, Nat.sub_diag. done. }
    eapply rtc_l.
    { apply step_produce. simpl. lia. }
    eapply rtc_l.
    { simpl. apply (step_take _ _ _ _ _ j). apply Hj. }
    simpl. rewrite Hins.
    eapply rtc_l.
    { apply (step_emit _ _ _ _ _ j Closing). apply Hj. }
    simpl. rewrite Hins.
    eapply rtc_l.
    { apply step_closing. lia. }
    replace (replicate j Exited ++ Exited :: replicate k Waiting)%list
      with (replicate (S j) Exited ++ replicate k Waiting)%list.
    { apply IH. lia. }
    rewrite replicate_S_end, <- app_assoc. done.
Qed.

(** With at least one worker, the pipeline can always run to the point
    where [consumer.join()] returns. *)
Lemma sequential_run tasks c :
  (1 <= no_workers)%nat ->
  joined no_workers cap do_cb consume_cb shutdown_cb tasks c
    (mkPipeline [] [] (replicate no_workers Exited) [] no_workers
                (shutdown_cb (consume_all do_cb consume_cb tasks c)) true).
Proof.
  intros Hn. split; [|done]. unfold launch.
  etrans.
  { apply run_tasks; [|lia]. destruct no_workers; [lia|done]. }
  etrans.
  { apply (run_closings no_workers 0). lia. }
  apply rtc_once. apply step_shutdown. lia.
Qed.
End Schedule.

(** ** The pipeline: when [consumer.join()] returns *)

Section Joined.
Variables (no_workers cap : nat).
Variable do_cb : TaggedDocument -> list TaggedEntity.
Variable document_ids_in_db : gset Z.
Variable tasks : list TaggedDocument.
Hypothesis workers_pos : (1 <= no_workers)%nat.
Hypothesis tasks_fit : Z.of_nat (length tasks) <= INT_MAX.

Abbreviation jstep :=
  (step no_workers cap do_cb (consume_task document_ids_in_db) shutdown_consumer).

Lemma Inv_reachable p :
  rtc jstep (launch no_workers tasks new_consumer) p ->
  Inv no_workers tasks p.
Proof.
  intros Hrun.
  eapply (rtc_ind_r (fun p => Inv no_workers tasks p)); [| |exact Hrun].
  - apply Inv_launch.
  - intros y z _ Hyz IH. by eapply Inv_step.
Qed.

(** Once the consumer has shut down nothing is left anywhere: every
    task has been counted, and every flush but the last was a
    scheduled one. *)
Lemma joined_counts p :
  joined no_workers cap do_cb (consume_task document_ids_in_db) shutdown_consumer
         tasks new_consumer p ->
  docs_done (consumer p) = Z.of_nat (length tasks)
  /\ Z.of_nat (length (tag_table (metatag (consumer p))))
     = Z.of_nat (length tasks) / BULK_INSERT_AFTER_K + 1.
Proof.
  intros [Hrun Hfin]. apply Inv_reachable in Hrun.
  destruct Hrun as [Hpool Hnn (ds & Hstream & Hlate & Hcount) Hclo Htail Hfl Hseen].
  specialize (Hseen Hfin). rewrite Hfin in Hfl.
  assert (Halive : sum_list_with alive (worker_pool p) = 0%nat) by lia.
  assert (Hclosings : sum_list_with closing_weight (result_queue p) = 0%nat) by lia.
  pose proof (sum_list_with_le taker alive (worker_pool p)) as Htk.
  pose proof (sum_list_with_le holds_item alive (worker_pool p)) as Hhd.
  assert (sum_list_with taker (worker_pool p) = 0%nat) as Htk0.
  { enough (sum_list_with taker (worker_pool p)
            <= sum_list_with alive (worker_pool p))%nat by lia.
    apply Htk. intros [|[]|]; simpl; lia. }
  assert (sum_list_with holds_item (worker_pool p) = 0%nat) as Hhd0.
  { enough (sum_list_with holds_item (worker_pool p)
            <= sum_list_with alive (worker_pool p))%nat by lia.
    apply Hhd. intros [|[]|]; simpl; lia. }
  assert (ds = []) as -> by (apply Hlate; lia).
  assert (result_queue p = []) as Hrq.
  { destruct (Htail Halive) as [|Hlast]; [done|].
    apply last_Some in Hlast as [l' Hl']. rewrite Hl' in Hclosings.
    rewrite sum_list_with_app in Hclosings. simpl in Hclosings. lia. }
  rewrite Hrq, Hhd0 in Hcount. simpl in Hcount.
  assert (docs_done (consumer p) = Z.of_nat (length tasks)) as Hdone by lia.
  split; [done|]. rewrite Hfl, Hdone. done.
Qed.
End Joined.

(** Where a tag in the pipeline comes from. *)
Section Provenance.
Variables (no_workers cap : nat).
Variable do_cb : TaggedDocument -> list TaggedEntity.
Variable document_ids_in_db : gset Z.
Variable tasks : list TaggedDocument.

Abbreviation vstep :=
  (step no_workers cap do_cb (consume_task document_ids_in_db) shutdown_consumer).

Lemma elem_of_insert_inv {A} (l : list A) i x y :
  y ∈ <[i := x]> l -> y = x \/ y ∈ l.
Proof.
  revert i. induction l as [|a l IH]; intros [|i]; simpl; intros Hin.
  - by right.
  - by right.
  - apply elem_of_cons in Hin as [->|Hin]; [by left|]. right. by right.
  - apply elem_of_cons in Hin as [->|Hin]; [right; by left|].
    destruct (IH _ Hin) as [->|?]; [by left|]. right. by right.
Qed.

Lemma Traced_launch : Traced do_cb tasks (launch no_workers tasks new_consumer).
Proof.
  split; simpl.
  - intros d Hin. apply elem_of_app in Hin as [Hin|Hin].
    + apply list_elem_of_fmap in Hin as (d' & [= ->] & Hin). done.
    + apply elem_of_replicate in Hin as [? _]. done.
  - intros r Hin. apply elem_of_replicate in Hin as [? _]. done.
  - intros r Hin. by apply not_elem_of_nil in Hin.
  - intros t Hin. by apply not_elem_of_nil in Hin.
Qed.

Lemma Traced_step p q : Traced do_cb tasks p -> vstep p q -> Traced do_cb tasks q.
Proof.
  intros [Htasks Hheld Hres Hacc] Hstep.
  destruct Hstep as
    [ m todo tq ws rq seen c fin Hcap
    | i m todo tq ws rq seen c fin Hw
    | i m todo tq ws rq seen c fin Hw
    | tags todo tq ws rq seen c Hseen
    | todo tq ws rq seen c Hseen
    | todo tq ws rq seen c Hseen ]; simpl in *.
  - split; simpl; auto.
    intros d Hin. apply Htasks. by rewrite <- app_assoc in Hin.
  - split; simpl; auto.
    + intros d Hin. apply Htasks. by right.
    + intros r Hin. apply elem_of_insert_inv in Hin as [Heq|Hin]; [|by auto].
      destruct m as [d|]; simplify_eq/=.
      exists d. split; [|done]. apply Htasks. by left.
  - assert (Emitting m ∈ ws) as Hm by (by eapply list_elem_of_lookup_2).
    split; simpl; auto.
    + intros r Hin. apply elem_of_insert_inv in Hin as [Heq|Hin]; [|by auto].
      destruct m; simplify_eq/=.
    + intros r Hin. apply elem_of_app in Hin as [Hin|Hin]; [by auto|].
      apply list_elem_of_singleton in Hin as <-. by apply Hheld.
  - assert (of_task do_cb tasks tags) as (d & Hd & ->) by (apply Hres; by left).
    split; cbn [task_queue producer_todo worker_pool result_queue consumer]; auto.
    + intros r Hin. apply Hres. by right.
    + intros t Hin.
      destruct (storable_dec document_ids_in_db (do_cb d)) as [Hs|Hs].
      * rewrite accepted_consume_storable in Hin by done.
        apply elem_of_app in Hin as [Hin|Hin]; [by auto|]. by exists d.
      * rewrite accepted_consume_not_storable in Hin by done. by auto.
  - split; simpl; auto.
    intros r Hin. apply Hres. by right.
  - split; cbn [task_queue producer_todo worker_pool result_queue consumer]; auto.
    intros t Hin. unfold shutdown_consumer in Hin. simpl in Hin.
    rewrite accepted_bulk_insert in Hin. by auto.
Qed.

Lemma Traced_reachable p :
  rtc vstep (launch no_workers tasks new_consumer) p -> Traced do_cb tasks p.
Proof.
  intros Hrun.
  eapply (rtc_ind_r (fun p => Traced do_cb tasks p)); [| |exact Hrun].
  - apply Traced_launch.
  - intros y z _ Hyz IH. by eapply Traced_step.
Qed.

(** Every tag ever bulk-inserted is a tag of the result of a task. *)
Lemma inserted_of_task p t batch :
  rtc vstep (launch no_workers tasks new_consumer) p ->
  batch ∈ tag_table (metatag (consumer p)) -> t ∈ batch ->
  exists in_doc, in_doc ∈ tasks /\ t ∈ do_cb in_doc.
Proof.
  intros Hrun Hb Ht. apply Traced_reachable in Hrun as [_ _ _ Hacc].
  apply Hacc. unfold accepted. apply elem_of_app. left.
  apply list_elem_of_In, in_concat. exists batch.
  split; by apply list_elem_of_In.
Qed.
End Provenance.

(** ** The batching of bulk inserts *)

(** C4: a scheduled flush happens in [consume_task] exactly when the
    progress counter has become a multiple of [BULK_INSERT_AFTER_K], the
    shutdown of the consumer flushes once more whatever the buffer holds,
    so a joined run over [n] tasks has made [n / 1000 + 1] bulk inserts:
    3 of them for 2500 documents. *)
Theorem flush_cadence (no_workers cap : nat) (do_cb : TaggedDocument -> list TaggedEntity)
    (document_ids_in_db : gset Z) (tasks : list TaggedDocument) (p : Pipeline) :
  (1 <= no_workers)%nat ->
  Z.of_nat (length tasks) <= INT_MAX ->
  joined no_workers cap do_cb (consume_task document_ids_in_db) shutdown_consumer
         tasks new_consumer p ->
  (forall tags c,
      let c' := consume_task document_ids_in_db tags c in
      tag_table (metatag c') =
        if (docs_done c' mod BULK_INSERT_AFTER_K =? 0)%Z
        then (tag_table (metatag c)
                ++ [partial_tag_inserts
                      (consume_buffer document_ids_in_db tags (metatag c))])%list
        else tag_table (metatag c))
  /\ (forall c,
        tag_table (metatag (shutdown_consumer c))
        = (tag_table (metatag c) ++ [partial_tag_inserts (metatag c)])%list)
  /\ Z.of_nat (length (tag_table (metatag (consumer p))))
     = Z.of_nat (length tasks) / BULK_INSERT_AFTER_K + 1
  /\ (BULK_INSERT_AFTER_K = 1000 /\
      (length tasks = 2500%nat ->
       length (tag_table (metatag (consumer p))) = 3%nat)).
Proof.
  intros HN Hfit Hjoin.
  destruct (joined_counts _ _ _ _ _ HN Hfit _ Hjoin) as [_ Hflushes].
  split; [|split; [|split; [done|split; [done|]]]].
  - intros tags c c'. unfold c', consume_task. simpl.
    destruct (_ =? _)%Z; simpl; by rewrite ?tag_table_consume_buffer.
  - done.
  - intros Hlen. rewrite Hlen in Hflushes.
    change (Z.of_nat 2500 / BULK_INSERT_AFTER_K + 1) with 3 in Hflushes. lia.
Qed.

(** ** A document whose tagging raises *)

Lemma do_task_raises mt cs in_doc :
  tagging_raises mt cs in_doc -> do_task mt cs in_doc = [].
Proof.
  unfold do_task. intros [[e ->]|(td & e & -> & ->)]; done.
Qed.

Lemma do_task_tags mt cs in_doc t :
  t ∈ do_task mt cs in_doc -> ~ tagging_raises mt cs in_doc.
Proof.
  intros Hin Hraise. rewrite (do_task_raises _ _ _ Hraise) in Hin.
  by apply not_elem_of_nil in Hin.
Qed.

(** C2: when the tagging of a document raises, [do_task] returns the
    empty result; the worker that took the document puts that result on
    the result queue and waits for the next task; the consumer counts the
    result and buffers nothing for it; and every tag ever bulk-inserted
    comes from a task whose tagging did not raise, so that (tags carrying
    the id of their document) none names the failed document. *)
Theorem failed_document_isolated (mt : PharmDictTagger) (consider_sections : bool)
    (document_ids_in_db : gset Z) (no_workers cap : nat)
    (tasks : list TaggedDocument) (in_doc : TaggedDocument) :
  tagging_raises mt consider_sections in_doc ->
  let do_cb := do_task mt consider_sections in
  let pstep := step no_workers cap do_cb (consume_task document_ids_in_db)
                    shutdown_consumer in
  do_cb in_doc = []
  /\ (forall i todo tq ws rq seen c fin,
        ws !! i = Some Waiting ->
        exists ws',
          pstep (mkPipeline todo (Item in_doc :: tq) ws rq seen c fin)
                (mkPipeline todo tq ws' rq seen c fin)
          /\ pstep (mkPipeline todo tq ws' rq seen c fin)
                   (mkPipeline todo tq ws (rq ++ [Item []]) seen c fin))
  /\ (forall c,
        let c' := consume_task document_ids_in_db (do_cb in_doc) c in
        docs_done c' = c_int (docs_done c + 1)
        /\ accepted (metatag c') = accepted (metatag c))
  /\ (forall p batch t,
        rtc pstep (launch no_workers tasks new_consumer) p ->
        batch ∈ tag_table (metatag (consumer p)) -> t ∈ batch ->
        exists d, d ∈ tasks /\ ~ tagging_raises mt consider_sections d
                  /\ t ∈ do_cb d)
  /\ ((forall d t, d ∈ tasks -> t ∈ do_cb d -> document t = doc_id d) ->
      (forall d, d ∈ tasks -> doc_id d = doc_id in_doc ->
                 tagging_raises mt consider_sections d) ->
      forall p batch t,
        rtc pstep (launch no_workers tasks new_consumer) p ->
        batch ∈ tag_table (metatag (consumer p)) -> t ∈ batch ->
        document t <> doc_id in_doc).
Proof.
  intros Hraise do_cb pstep.
  assert (Hempty : do_cb in_doc = []) by by apply do_task_raises.
  assert (Hfrom : forall p batch t,
             rtc pstep (launch no_workers tasks new_consumer) p ->
             batch ∈ tag_table (metatag (consumer p)) -> t ∈ batch ->
             exists d, d ∈ tasks /\ ~ tagging_raises mt consider_sections d
                       /\ t ∈ do_cb d).
  { intros p batch t Hrun Hb Ht.
    destruct (inserted_of_task _ _ _ _ _ _ _ _ Hrun Hb Ht) as (d & Hd & Hin).
    exists d. split; [done|]. split; [|done]. by eapply do_task_tags. }
  split; [done|]. split; [|split; [|split; [done|]]].
  - intros i todo tq ws rq seen c fin Hw.
    exists (<[i := Emitting (Item [])]> ws). split.
    + pose proof (step_take no_workers cap do_cb (consume_task document_ids_in_db)
                    shutdown_consumer i (Item in_doc) todo tq ws rq seen c fin Hw)
        as Hstep.
      simpl in Hstep. by rewrite Hempty in Hstep.
    + pose proof (step_emit no_workers cap do_cb (consume_task document_ids_in_db)
                    shutdown_consumer i (Item []) todo tq
                    (<[i := Emitting (Item [])]> ws) rq seen c fin) as Hstep.
      simpl in Hstep.
      rewrite list_insert_insert_eq, (list_insert_id ws i Waiting) in Hstep by done.
      apply Hstep. apply list_lookup_insert_eq. by eapply lookup_lt_Some.
  - intros c c'. split; [reflexivity|]. unfold c'. rewrite Hempty.
    apply accepted_consume_not_storable. intros (? & ? & ? & _). done.
  - intros Hlabel Hall p batch t Hrun Hb Ht Hdoc.
    destruct (Hfrom p batch t Hrun Hb Ht) as (d & Hd & Hok & Hin).
    apply Hok, Hall; [done|]. by rewrite <- (Hlabel d t).
Qed.

(** ** The progress counter of a run of [main] *)

Lemma elem_of_generate_tasks document_ids supply d :
  d ∈ generate_tasks document_ids supply
  <-> (doc_id d ∈ document_ids /\ has_content d = true) /\ d ∈ supply.
Proof.
  unfold generate_tasks. rewrite list_elem_of_filter.
  rewrite andb_True, bool_decide_spec, Is_true_true. done.
Qed.

(** Documents that are supplied once each among those with their id
    stay apart by their ids in what a filter keeps of the supply. *)
Lemma NoDup_ids_of_filter (P : TaggedDocument -> Prop) `{!forall d, Decision (P d)}
    (supply : list TaggedDocument) :
  (forall d, d ∈ supply -> P d ->
     (length (filter (fun d' => doc_id d' = doc_id d) supply) <= 1)%nat) ->
  NoDup (doc_id <$> filter P supply).
Proof.
  induction supply as [|a l IH]; intros Honce; [constructor|].
  assert (NoDup (doc_id <$> filter P l)) as Hrest.
  { apply IH. intros d Hd HP.
    etransitivity; [|exact (Honce d ltac:(by right) HP)].
    rewrite filter_cons. case_decide; simpl; lia. }
  rewrite filter_cons. case_decide as Ha; [|done].
  rewrite fmap_cons. constructor; [|done].
  intros Hin. apply list_elem_of_fmap in Hin as (d & Heq & Hd).
  apply list_elem_of_filter in Hd as [_ Hd].
  pose proof (Honce a ltac:(by left) Ha) as Hle.
  rewrite filter_cons in Hle. rewrite decide_True in Hle by done.
  simpl in Hle.
  assert (d ∈ filter (fun d' => doc_id d' = doc_id a) l) as Hd'
    by (apply list_elem_of_filter; by split).
  destruct (filter (fun d' => doc_id d' = doc_id a) l);
    [by apply elem_of_nil in Hd'|simpl in Hle; lia].
Qed.

(** When every id of the work set is supplied exactly once, and with
    content, there are as many tasks as ids, whatever else is supplied
    beside them. *)
Lemma generate_tasks_once (document_ids : gset Z) supply :
  (forall i, i ∈ document_ids ->
     exists d, filter (fun d' => doc_id d' = i) supply = [d] /\ has_content d = true) ->
  length (generate_tasks document_ids supply) = size document_ids.
Proof.
  intros Honce.
  assert (NoDup (doc_id <$> generate_tasks document_ids supply)) as Hnd.
  { unfold generate_tasks. apply NoDup_ids_of_filter. intros d _ Hd.
    apply andb_True in Hd as [Hd _]. apply bool_decide_spec in Hd.
    destruct (Honce _ Hd) as (d0 & -> & _). done. }
  rewrite <- (length_fmap doc_id), <- (size_list_to_set (C := gset Z)) by done.
  f_equal. apply set_eq. intros i.
  rewrite elem_of_list_to_set, list_elem_of_fmap. split.
  - intros (d & -> & Hd). apply elem_of_generate_tasks in Hd. tauto.
  - intros Hi. destruct (Honce i Hi) as (d & Hd & Hc).
    assert (d ∈ filter (fun d' => doc_id d' = i) supply) as Hin
      by (rewrite Hd; by left).
    apply list_elem_of_filter in Hin as [<- Hin].
    exists d. split; [done|]. by apply elem_of_generate_tasks.
Qed.

(** C1 (as amended): after [consumer.join()] has returned, with at least
    one worker and fewer than 2^31 tasks, [docs_done] is the number of
    tasks [generate_tasks] yielded: the supplied documents whose id is in
    the work set and that have content.  It is the size of the work set
    when every id of the work set is supplied exactly once and with
    content: among the supplied documents exactly one has that id, and it
    has content; what is supplied under other ids does not matter.  No
    step of the pipeline but the consumer's taking a result changes the
    counter, and that step adds one. *)
Theorem progress_counter_counts_tasks (args : Args) (env : Env) (r : Ready) (p : Pipeline) :
  prepare args env = inr r ->
  1 <= workers args ->
  Z.of_nat (length (main_tasks args env r)) <= INT_MAX ->
  main_joined args env r p ->
  docs_done (consumer p) = Z.of_nat (length (main_tasks args env r))
  /\ ((forall i, i ∈ document_ids r ->
         exists d, filter (fun d' => doc_id d' = i) (main_supply args env r) = [d]
                   /\ has_content d = true) ->
      docs_done (consumer p) = Z.of_nat (size (document_ids r)))
  /\ (forall q q',
        main_step args env r q q' ->
        docs_done (consumer q') = docs_done (consumer q)
        \/ exists tags,
             result_queue q = Item tags :: result_queue q'
             /\ docs_done (consumer q') = c_int (docs_done (consumer q) + 1)).
Proof.
  intros _ HN Hfit Hjoin.
  assert (1 <= worker_count args)%nat as HN' by (unfold worker_count; lia).
  destruct (joined_counts _ _ _ _ _ HN' Hfit _ Hjoin) as [Hdone _].
  split; [done|]. split.
  - intros Honce. rewrite Hdone. f_equal.
    by apply generate_tasks_once.
  - intros q q' Hstep. unfold main_step in Hstep.
    destruct Hstep; simpl; eauto.
Qed.

(** ** How a call of [main] ends *)

Lemma create_directories_stop args env how fs :
  create_directories args env = inl (how, fs) -> how <> Returned.
Proof.
  unfold create_directories. intros H.
  repeat case_match; simplify_eq; done.
Qed.

Lemma prepare_stop args env o :
  prepare args env = inl o -> exit_status o <> Returned.
Proof.
  unfold prepare. intros H.
  destruct (create_directories args env) as [[how fs]|[root fs]] eqn:Hdirs.
  - simplify_eq. simpl. by eapply create_directories_stop.
  - repeat case_match; simplify_eq; done.
Qed.

(** A call that returns went through the pipeline and the finalization. *)
Lemma main_returned args env o :
  main args env o -> exit_status o = Returned ->
  exists r p, prepare args env = inr r /\ main_joined args env r p
              /\ o = finalize args env r (consumer p).
Proof.
  intros [o' Hstop|r p Hgo Hjoin] Hret.
  - by apply prepare_stop in Hstop.
  - eauto.
Qed.

(** What [prepare] hands on is what its parts computed. *)
Lemma prepare_ready args env r :
  prepare args env = inr r ->
  exists fs,
    create_directories args env = inr (root_dir r, fs)
    /\ ready_paths r = fs
    /\ select_ent_types args env = Return (ent_types r)
    /\ load_document_ids args env fs
       = (input_file_given r, document_ids r, document_ids_in_db r)
    /\ document_ids r <> ∅.
Proof.
  unfold prepare. intros H.
  destruct (create_directories args env) as [[how fs]|[root fs]]; [done|].
  destruct (select_ent_types args env) as [ets|e]; [|done].
  destruct (load_document_ids args env fs) as [[given ids] db] eqn:Hload.
  destruct (Nat.eqb_spec (size ids) 0) as [Hz|Hnz]; [done|].
  simplify_eq. simpl. exists fs. rewrite Hload. repeat split; try done.
  intros ->. by rewrite size_empty in Hnz.
Qed.

Lemma create_directories_root args env root fs :
  create_directories args env = inr (root, fs) ->
  root = if truthy (workdir args)
         then abspath env (default ""%string (workdir args))
         else mkdtemp env.
Proof.
  unfold create_directories. intros H.
  repeat case_match; simplify_eq; done.
Qed.

(** ** Paths *)

Lemma prefix_refl s : String.prefix s s = true.
Proof.
  induction s as [|c s IH]; simpl; [done|].
  destruct (Ascii.ascii_dec c c); [done|congruence].
Qed.

Lemma prefix_trans a b c :
  String.prefix a b = true -> String.prefix b c = true -> String.prefix a c = true.
Proof.
  revert b c. induction a as [|x a IH]; intros [|y b] [|z c]; simpl; try done.
  destruct (Ascii.ascii_dec x y) as [->|]; [|done].
  destruct (Ascii.ascii_dec y z) as [->|]; [|done].
  apply IH.
Qed.

Lemma append_nil (b : string) : ("" ++ b)%string = b.
Proof. reflexivity. Qed.

Lemma append_cons c (a b : string) : (String c a ++ b)%string = String c (a ++ b)%string.
Proof. reflexivity. Qed.

Lemma prefix_nil s : String.prefix "" s = true.
Proof. by destruct s. Qed.

Lemma prefix_app a b : String.prefix a (a ++ b)%string = true.
Proof.
  induction a as [|x a IH].
  - apply prefix_nil.
  - rewrite append_cons. simpl.
    destruct (Ascii.ascii_dec x x); [done|congruence].
Qed.

(** What is left of a deleted tree: neither its root nor a path that
    continues the root after a separator. *)
Lemma below_false root p :
  below root p = false ->
  p <> root /\ String.prefix (root ++ "/")%string p = false.
Proof.
  unfold below. intros H. apply orb_false_iff in H as [Heq Hpre]. split.
  - intros ->. by rewrite String.eqb_refl in Heq.
  - destruct (ends_with_sep root); [|done].
    destruct (String.prefix (root ++ "/")%string p) eqn:Hp; [|done].
    rewrite (prefix_trans _ _ _ (prefix_app root "/"%string) Hp) in Hpre. done.
Qed.

Lemma rmtree_gone resolve root fs path :
  path ∈ rmtree resolve root fs ->
  path ∈ fs /\ path <> root /\ String.prefix (root ++ "/")%string path = false.
Proof.
  unfold rmtree, in_tree. rewrite elem_of_filter. intros [Hno Hin].
  split; [done|]. apply orb_false_iff in Hno as [Hno _]. by apply below_false.
Qed.

(** ** The RunRecords *)

Lemma document_id_imap (f : nat -> Z -> DocTaggedByRow) (l : list Z) :
  (forall i x, document_id (f i x) = x) -> document_id <$> imap f l = l.
Proof.
  revert f. induction l as [|x l IH]; intros f Hf; simpl; [done|].
  rewrite Hf. f_equal. apply IH. intros i y. apply Hf.
Qed.

Lemma add_doc_tagged_by_infos_ids env ids coll ets name version :
  document_id <$> add_doc_tagged_by_infos env ids coll ets name version = elements ids.
Proof.
  unfold add_doc_tagged_by_infos. by apply document_id_imap.
Qed.

Lemma count_distinct_ids (rows : list DocTaggedByRow) i :
  NoDup (document_id <$> rows) ->
  length (filter (fun row => document_id row = i) rows)
  = if decide (i ∈ document_id <$> rows) then 1%nat else 0%nat.
Proof.
  induction rows as [|row rows IH]; intros Hnd.
  - destruct (decide (i ∈ document_id <$> [])) as [Hin|_]; [|done].
    by apply not_elem_of_nil in Hin.
  - rewrite fmap_cons in Hnd. apply NoDup_cons in Hnd as [Hfresh Hnd].
    specialize (IH Hnd). rewrite filter_cons, fmap_cons.
    destruct (decide (document_id row = i)) as [<-|Hne].
    + simpl. rewrite IH.
      destruct (decide (document_id row ∈ document_id <$> rows)); [done|].
      destruct (decide (document_id row ∈ document_id row :: (document_id <$> rows)))
        as [_|Hout]; [done|].
      exfalso. apply Hout. by left.
    + rewrite IH.
      destruct (decide (i ∈ document_id <$> rows)) as [Hin|Hout];
        destruct (decide (i ∈ document_id row :: (document_id <$> rows)))
          as [Hin'|Hout']; try done.
      * exfalso. apply Hout'. by right.
      * apply elem_of_cons in Hin' as [?|?]; done.
Qed.

(** C3: when [main] returns, [DocTaggedBy] has received exactly one row
    for every id that is both in the work set and among the document ids
    of the database, and none for any other id; whether the tagging of a
    document succeeded plays no part, so a document whose tagging raised
    has its row all the same. *)
Theorem run_records_cover_intersection (args : Args) (env : Env) (o : Outcome) :
  main args env o ->
  exit_status o = Returned ->
  exists r,
    prepare args env = inr r
    /\ (forall i,
          length (filter (fun row => document_id row = i) (run_records o))
          = if decide (i ∈ document_ids r ∩ document_ids_in_db r)
            then 1%nat else 0%nat)
    /\ (forall d,
          d ∈ main_tasks args env r ->
          tagging_raises (new_tagger env (ent_types r)) (sections args) d ->
          doc_id d ∈ document_ids_in_db r ->
          exists row, row ∈ run_records o /\ document_id row = doc_id d).
Proof.
  intros Hmain Hret.
  destruct (main_returned _ _ _ Hmain Hret) as (r & p & Hgo & Hjoin & ->).
  exists r. split; [done|]. simpl.
  set (rows := add_doc_tagged_by_infos _ _ _ _ _ _).
  assert (Hids : document_id <$> rows = elements (document_ids r ∩ document_ids_in_db r))
    by apply add_doc_tagged_by_infos_ids.
  split.
  - intros i. rewrite count_distinct_ids by (rewrite Hids; apply NoDup_elements).
    rewrite Hids. destruct (decide (i ∈ elements _)) as [Hin|Hout].
    + rewrite decide_True; [done|]. by apply elem_of_elements.
    + rewrite decide_False; [done|]. by rewrite <- elem_of_elements.
  - intros d Hd _ Hdb. apply elem_of_generate_tasks in Hd as [[Hwork _] _].
    assert (doc_id d ∈ document_id <$> rows) as Hin.
    { rewrite Hids. apply elem_of_elements. by apply elem_of_intersection. }
    apply list_elem_of_fmap in Hin as (row & Heq & Hrow). eauto.
Qed.

(** ** The work set *)

(** C6 (as amended): without an input file, the work set is every
    document id of the collection when the force flag is set, and those
    not yet tagged by this tagger and version otherwise; with an input
    file and the force flag unset, it is the ids of the file not yet
    tagged (none when the file does not exist). *)
Theorem work_set_selection (args : Args) (env : Env) (fs : gset string) :
  let document_ids := (load_document_ids args env fs).1.2 in
  (truthy (input args) = false ->
   document_ids =
     if force_tag_all args
     then get_document_ids_for_collection env
     else get_document_ids_for_collection env ∖ already_tagged env)
  /\ (truthy (input args) = true -> force_tag_all args = false ->
      document_ids =
        let in_file := default ""%string (input args) in
        if bool_decide (in_file ∈ fs)
        then get_document_ids env in_file ∖ already_tagged env
        else ∅).
Proof.
  unfold load_document_ids. split.
  - intros ->. simpl. destruct (force_tag_all args); simpl; [done|].
    unfold get_untagged_doc_ids_by_tagger. apply union_empty_l_L.
  - intros -> _. simpl. unfold find_untagged_ids, get_untagged_doc_ids_by_tagger.
    case_bool_decide; simpl; [|done]. apply union_empty_l_L.
Qed.

(** ** The empty work set *)

(** C8: when the work set is empty, [main] ends at once with [exit(0)]:
    the tagger is never built, nothing is bulk-inserted into the tag
    table and no row is written to [DocTaggedBy]. *)
Theorem empty_work_set_stops (args : Args) (env : Env) (root : string)
    (fs : gset string) (ets : list string) :
  create_directories args env = inr (root, fs) ->
  select_ent_types args env = Return ets ->
  (load_document_ids args env fs).1.2 = ∅ ->
  forall o,
    main args env o <->
    o = {| exit_status := SysExit 0;
           paths_after := fs;
           tagger_initialised := false;
           tag_batches := [];
           progress_counter := None;
           run_records := [] |}.
Proof.
  intros Hdirs Hets Hempty o.
  assert (Hprep : prepare args env = inl (mkOutcome (SysExit 0) fs false [] None [])).
  { unfold prepare. rewrite Hdirs, Hets.
    destruct (load_document_ids args env fs) as [[given ids] db].
    simpl in Hempty. subst ids. by rewrite size_empty. }
  split.
  - intros [o' Hstop|r p Hgo _]; congruence.
  - intros ->. by apply main_stops.
Qed.

(** ** The working directory *)

(** C7 (as amended): when [main] returns, a temporary directory it made
    for itself (no [--workdir]) is gone with everything below it, and a
    directory given with [--workdir] is left as it is. *)
Theorem scratch_directory_at_return (args : Args) (env : Env) (o : Outcome) :
  main args env o ->
  exit_status o = Returned ->
  exists r,
    prepare args env = inr r
    /\ if truthy (workdir args)
       then paths_after o = ready_paths r
       else root_dir r = mkdtemp env
            /\ forall path, path ∈ paths_after o ->
                 path ∈ ready_paths r /\ path <> root_dir r
                 /\ String.prefix (root_dir r ++ "/")%string path = false.
Proof.
  intros Hmain Hret.
  destruct (main_returned _ _ _ Hmain Hret) as (r & p & Hgo & Hjoin & ->).
  exists r. split; [done|]. simpl.
  destruct (prepare_ready _ _ _ Hgo) as (fs & Hdirs & _).
  apply create_directories_root in Hdirs.
  destruct (truthy (workdir args)); simpl; [done|].
  split; [done|]. intros path. apply rmtree_gone.
Qed.

(** ** The scenarios, run *)

Lemma scheduled_joined args env r :
  1 <= workers args -> main_joined args env r (scheduled args env r).
Proof.
  intros Hn. apply sequential_run.
  - unfold max_tasks. lia.
  - unfold worker_count. lia.
Qed.

Lemma corpus1_prepare : prepare corpus1_args corpus1_env = inr corpus1_ready.
Proof. vm_compute. reflexivity. Qed.

Lemma corpus1_workers : 1 <= workers corpus1_args.
Proof. vm_compute. discriminate. Qed.

Lemma corpus1_main : main corpus1_args corpus1_env corpus1_outcome.
Proof.
  apply main_returns; [exact corpus1_prepare|].
  apply scheduled_joined, corpus1_workers.
Qed.

(** The scenario of CORPUS1: the counter ends at 3, the tags of documents
    1 and 3 are inserted by the final flush and none of document 2, and
    all three documents get their row. *)
Example corpus1_run :
  progress_counter corpus1_outcome = Some 3
  /\ tag_batches corpus1_outcome = [[scenario_tag 1; scenario_tag 3]]
  /\ length (run_records corpus1_outcome) = 3%nat
  /\ list_to_set (document_id <$> run_records corpus1_outcome) = ({[ 1; 2; 3 ]} : gset Z).
Proof. vm_compute. done. Qed.

(** CORPUS1 with two workers: the counter ends at the number of tasks. *)
Lemma progress_counter_counts_tasks_witness :
  prepare corpus1_args corpus1_env = inr corpus1_ready
  /\ main_joined corpus1_args corpus1_env corpus1_ready
       (scheduled corpus1_args corpus1_env corpus1_ready)
  /\ docs_done (consumer (scheduled corpus1_args corpus1_env corpus1_ready))
     = Z.of_nat (length (main_tasks corpus1_args corpus1_env corpus1_ready)).
Proof.
  assert (Hfit : Z.of_nat (length (main_tasks corpus1_args corpus1_env corpus1_ready))
                 <= INT_MAX) by (vm_compute; discriminate).
  pose proof (scheduled_joined _ corpus1_env corpus1_ready corpus1_workers) as Hjoin.
  split; [exact corpus1_prepare|]. split; [exact Hjoin|].
  exact (proj1 (progress_counter_counts_tasks _ _ _ _
                  corpus1_prepare corpus1_workers Hfit Hjoin)).
Defined.

(** Document 2, whose tagging raises, yields the empty result. *)
Lemma failed_document_isolated_witness :
  tagging_raises scenario_tagger false (mkTaggedDocument 2 true [])
  /\ do_task scenario_tagger false (mkTaggedDocument 2 true []) = [].
Proof.
  assert (Hraise : tagging_raises scenario_tagger false (mkTaggedDocument 2 true [])).
  { left. exists (Exception "malformed document"). reflexivity. }
  split; [exact Hraise|].
  exact (proj1 (failed_document_isolated scenario_tagger false {[ 1; 2; 3 ]} 2 max_tasks
                  corpus1 _ Hraise)).
Defined.

(** CORPUS1: one row for each of its documents, document 2 included. *)
Lemma run_records_cover_intersection_witness :
  main corpus1_args corpus1_env corpus1_outcome
  /\ exit_status corpus1_outcome = Returned
  /\ exists r,
       prepare corpus1_args corpus1_env = inr r
       /\ (forall i,
             length (filter (fun row => document_id row = i) (run_records corpus1_outcome))
             = if decide (i ∈ document_ids r ∩ document_ids_in_db r)
               then 1%nat else 0%nat)
       /\ (forall d,
             d ∈ main_tasks corpus1_args corpus1_env r ->
             tagging_raises (new_tagger corpus1_env (ent_types r))
                            (sections corpus1_args) d ->
             doc_id d ∈ document_ids_in_db r ->
             exists row, row ∈ run_records corpus1_outcome /\ document_id row = doc_id d).
Proof.
  split; [exact corpus1_main|]. split; [reflexivity|].
  exact (run_records_cover_intersection _ _ _ corpus1_main eq_refl).
Defined.

(** CORPUS1: the temporary directory is gone when [main] returns. *)
Lemma scratch_directory_at_return_witness :
  main corpus1_args corpus1_env corpus1_outcome
  /\ exit_status corpus1_outcome = Returned
  /\ exists r,
       prepare corpus1_args corpus1_env = inr r
       /\ if truthy (workdir corpus1_args)
          then paths_after corpus1_outcome = ready_paths r
          else root_dir r = mkdtemp corpus1_env
               /\ forall path, path ∈ paths_after corpus1_outcome ->
                    path ∈ ready_paths r /\ path <> root_dir r
                    /\ String.prefix (root_dir r ++ "/") path = false.
Proof.
  split; [exact corpus1_main|]. split; [reflexivity|].
  exact (scratch_directory_at_return _ _ _ corpus1_main eq_refl).
Defined.

(** 2500 documents: three bulk inserts. *)
Lemma flush_cadence_witness :
  length bulk_tasks = 2500%nat
  /\ joined 2 max_tasks (do_task scenario_tagger false) (consume_task bulk_ids)
            shutdown_consumer bulk_tasks new_consumer bulk_end
  /\ length (tag_table (metatag (consumer bulk_end))) = 3%nat.
Proof.
  assert (Hlen : length bulk_tasks = 2500%nat) by (vm_compute; reflexivity).
  assert (Hfit : Z.of_nat (length bulk_tasks) <= INT_MAX)
    by (rewrite Hlen; vm_compute; discriminate).
  assert (Hcap : (1 <= max_tasks)%nat) by (unfold max_tasks; lia).
  assert (Hn : (1 <= 2)%nat) by lia.
  pose proof (sequential_run 2 max_tasks (do_task scenario_tagger false)
                (consume_task bulk_ids) shutdown_consumer Hcap bulk_tasks
                new_consumer Hn) as Hjoin.
  split; [exact Hlen|]. split; [exact Hjoin|].
  exact (proj2 (proj2 (proj2 (proj2
           (flush_cadence 2 max_tasks _ bulk_ids bulk_tasks bulk_end Hn Hfit Hjoin))))
         Hlen).
Defined.

(** The empty collection: [main] stops with [exit(0)]. *)
Lemma empty_work_set_stops_witness :
  (load_document_ids empty_args empty_env empty_paths).1.2 = ∅
  /\ main empty_args empty_env empty_outcome.
Proof.
  assert (Hdirs : create_directories empty_args empty_env
                  = inr ("/tmp/tmpk3v9", empty_paths)) by (vm_compute; reflexivity).
  assert (Hets : select_ent_types empty_args empty_env = Return ["Disease"; "Drug"])
    by (vm_compute; reflexivity).
  assert (Hempty : (load_document_ids empty_args empty_env empty_paths).1.2 = ∅)
    by (vm_compute; reflexivity).
  split; [exact Hempty|].
  exact (proj2 (empty_work_set_stops _ _ _ _ _ Hdirs Hets Hempty empty_outcome) eq_refl).
Defined.

(** C1, as stated, fails: document 1 is in the work set but has no
    content, so [generate_tasks] passes it over; the run joins with the
    counter at 0 for a work set of size 1. *)
Lemma counter_below_work_set_size :
  prepare contentless_args contentless_env = inr contentless_ready
  /\ 1 <= workers contentless_args
  /\ main_joined contentless_args contentless_env contentless_ready
       (scheduled contentless_args contentless_env contentless_ready)
  /\ size (document_ids contentless_ready) = 1%nat
  /\ docs_done (consumer (scheduled contentless_args contentless_env contentless_ready)) = 0.
Proof.
  assert (Hn : 1 <= workers contentless_args) by (vm_compute; discriminate).
  split; [vm_compute; reflexivity|]. split; [exact Hn|].
  split; [by apply scheduled_joined|].
  split; vm_compute; reflexivity.
Qed.

(** C6, as stated, fails: with an input file the force flag is not
    looked at; the one id of the file is already tagged, and the work set
    is empty although the flag is set. *)
Lemma force_flag_unused_with_input_file :
  force_tag_all forced_args = true
  /\ truthy (input forced_args) = true
  /\ get_document_ids forced_env "in.pubtator" = {[ 1 ]}
  /\ (load_document_ids forced_args forced_env (paths forced_env)).1.2 = ∅.
Proof. repeat split; vm_compute; reflexivity. Qed.

(** C7, as stated, fails: a run given [--workdir] returns with the
    directory still there, and the early exit on an empty work set
    leaves the temporary directory behind. *)
Lemma working_directory_left_behind :
  (main workdir_args corpus1_env workdir_outcome
   /\ exit_status workdir_outcome = Returned
   /\ "/work" ∈ paths_after workdir_outcome)
  /\ (main empty_args empty_env empty_outcome
      /\ exit_status empty_outcome = SysExit 0
      /\ mkdtemp empty_env ∈ paths_after empty_outcome).
Proof.
  split.
  - split; [|split; [reflexivity|]].
    + apply main_returns; [vm_compute; reflexivity|].
      apply scheduled_joined. vm_compute. discriminate.
    + vm_compute. reflexivity.
  - split; [|split; [reflexivity|]].
    + apply main_stops. vm_compute. reflexivity.
    + vm_compute. reflexivity.
Qed.

(** The first tag decides for the whole result: a result whose first tag
    names document 1 (in the database) takes a tag of document 9 (not in
    it) into the buffer, and a result whose first tag names document 9
    is dropped together with its tag of document 1. *)
Example first_tag_decides :
  accepted (metatag (consume_task {[ 1 ]} [scenario_tag 1; scenario_tag 9] new_consumer))
    = [scenario_tag 1; scenario_tag 9]
  /\ accepted (metatag (consume_task {[ 1 ]} [scenario_tag 9; scenario_tag 1] new_consumer))
    = [].
Proof. split; vm_compute; reflexivity. Qed.

(** Work set {1}, and documents 1, 9 and 9 again supplied: id 1 is
    supplied exactly once and with content, and one task is yielded. *)
Example work_set_supplied_once_among_others :
  let supply := [mkTaggedDocument 1 true []; mkTaggedDocument 9 true [];
                 mkTaggedDocument 9 false []] in
  (forall i, i ∈ ({[ 1 ]} : gset Z) ->
     exists d, filter (fun d' => doc_id d' = i) supply = [d] /\ has_content d = true)
  /\ length (generate_tasks {[ 1 ]} supply) = size ({[ 1 ]} : gset Z).
Proof.
  intros supply.
  assert (forall i, i ∈ ({[ 1 ]} : gset Z) ->
            exists d, filter (fun d' => doc_id d' = i) supply = [d]
                      /\ has_content d = true) as Honce.
  { intros i Hi. apply elem_of_singleton in Hi as ->.
    exists (mkTaggedDocument 1 true []). split; reflexivity. }
  split; [exact Honce|]. by apply generate_tasks_once.
Qed.

(** The trees [shutil.rmtree] deletes: everything absolute is below "/";
    /work2 is not below /work; and with /cwd the current directory, the
    relative name work/old lies in the tree at /cwd/work. *)
Example trees_deleted :
  below "/" "/etc/passwd" = true
  /\ below "/work" "/work/old" = true
  /\ below "/work" "/work2" = false
  /\ in_tree (String.append "/cwd/") "/cwd/work" "work/old" = true
  /\ in_tree (String.append "/cwd/") "/cwd/work" "in.pubtator" = false.
Proof. repeat split; vm_compute; reflexivity. Qed.

(** * More properties *)

(** ** The classifier and the tree names *)

Lemma matching_sublist s s' table :
  String.prefix s s' = true ->
  matching s table `sublist_of` matching s' table.
Proof.
  intros Hp. unfold matching.
  induction table as [|[tn et] table IH]; [done|].
  rewrite !filter_cons. simpl.
  destruct (decide (String.prefix tn s = true)) as [Hs|Hs].
  - rewrite decide_True by (by eapply prefix_trans). by apply sublist_skip.
  - destruct (decide (String.prefix tn s' = true)); [by apply sublist_cons|done].
Qed.

Lemma tree_number_to_entity_type_hits tree_number :
  tree_number_to_entity_type tree_number =
    match (matching tree_number MESH_TREE_TO_ENTITY_TYPE).*2 with
    | [] => Raise (KeyError ("No entity type for tree number "
                               ++ tree_number ++ " found")%string)
    | hits => Return hits
    end.
Proof.
  unfold tree_number_to_entity_type. rewrite collect_hits_filter. simpl.
  by destruct (_.*2).
Qed.

(** X1: a tree number keeps every entity type of a tree number it
    extends: if [s] is the start of [s'] and [s] has entity types, then
    [s'] has them too, in the same order, possibly among others. *)
Theorem entity_types_inherited (s s' : string) (l : list EntityType) :
  String.prefix s s' = true ->
  tree_number_to_entity_type s = Return l ->
  exists l', tree_number_to_entity_type s' = Return l' /\ l `sublist_of` l'.
Proof.
  intros Hp. rewrite !tree_number_to_entity_type_hits.
  pose proof (matching_sublist _ _ MESH_TREE_TO_ENTITY_TYPE Hp) as Hsub.
  apply (fmap_sublist snd) in Hsub.
  destruct ((matching s _).*2) as [|x hits] eqn:Hs; [done|].
  intros [= <-].
  destruct ((matching s' _).*2) as [|y hits'] eqn:Hs'.
  - by apply sublist_nil_r in Hsub.
  - eauto.
Qed.

Lemma prefix_cons_inv x a s :
  String.prefix (String x a) s = true ->
  exists rest, s = String x rest /\ String.prefix a rest = true.
Proof.
  destruct s as [|y rest]; [done|]. cbn [String.prefix].
  destruct (Ascii.ascii_dec x y) as [->|]; [eauto|done].
Qed.

Lemma table_prefixes_named :
  Forall (fun e : string * EntityType =>
            forall s, String.prefix e.1 s = true ->
              exists c rest name,
                s = String c rest
                /\ get_name_for_tree (String c EmptyString) = Return name)
         MESH_TREE_TO_ENTITY_TYPE.
Proof.
  unfold MESH_TREE_TO_ENTITY_TYPE.
  repeat (first [apply List.Forall_nil | apply List.Forall_cons]);
    intros s Hp; apply prefix_cons_inv in Hp as (rest & -> & _);
    eexists _, rest, _; split; reflexivity.
Qed.

(** X2: every tree number that [tree_number_to_entity_type] classifies
    lies in a tree that [get_name_for_tree] can name: its first character
    is a key of [MESH_TREE_NAMES]. *)
Theorem classified_tree_is_named (tree_number : string) (l : list EntityType) :
  tree_number_to_entity_type tree_number = Return l ->
  exists c rest name,
    tree_number = String c rest
    /\ get_name_for_tree (String c EmptyString) = Return name.
Proof.
  rewrite tree_number_to_entity_type_hits.
  destruct (matching tree_number MESH_TREE_TO_ENTITY_TYPE) as [|[tn et] m] eqn:Hm;
    [done|]. intros _.
  assert ((tn, et) ∈ matching tree_number MESH_TREE_TO_ENTITY_TYPE) as Hin
    by (rewrite Hm; left).
  unfold matching in Hin. apply list_elem_of_filter in Hin as [Hp Hin].
  pose proof table_prefixes_named as Hall.
  rewrite Forall_forall in Hall. by apply (Hall _ Hin).
Qed.

(** ** The ontology index: one dictionary *)

Lemma dict_get_None {V} (d : list (string * V)) k :
  dict_get d k = None <-> k ∉ d.*1.
Proof.
  induction d as [|[k' v] d IH]; simpl.
  - split; [intros _; apply not_elem_of_nil|done].
  - destruct (String.eqb_spec k' k) as [->|Hne].
    + split; [done|]. intros Hout. exfalso. apply Hout. by left.
    + rewrite IH. rewrite not_elem_of_cons.
      split; [intros H; split; [congruence|done]|by intros [_ H]].
Qed.

Lemma dict_get_Some_elem {V} (d : list (string * V)) k v :
  dict_get d k = Some v -> (k, v) ∈ d.
Proof.
  induction d as [|[k' v'] d IH]; simpl; [done|].
  destruct (String.eqb_spec k' k) as [->|Hne].
  - intros [= ->]. by left.
  - intros H. right. by apply IH.
Qed.

Lemma dict_get_elem {V} (d : list (string * V)) k v :
  NoDup d.*1 -> (k, v) ∈ d -> dict_get d k = Some v.
Proof.
  induction d as [|[k' v'] d IH]; simpl; intros Hnd Hin.
  - by apply not_elem_of_nil in Hin.
  - apply NoDup_cons in Hnd as [Hfresh Hnd].
    apply elem_of_cons in Hin as [[= <- <-]|Hin].
    + by rewrite String.eqb_refl.
    + destruct (String.eqb_spec k' k) as [->|Hne]; [|by apply IH].
      exfalso. apply Hfresh. apply list_elem_of_fmap. by exists (k, v).
Qed.

Lemma dict_get_app {V} (d d' : list (string * V)) k :
  dict_get (d ++ d') k =
    match dict_get d k with Some v => Some v | None => dict_get d' k end.
Proof.
  induction d as [|[k' v] d IH]; simpl; [done|].
  by destruct (String.eqb k' k).
Qed.

(** X3: [_add_descriptor_for_tree_no] files a tree number once.  It
    raises [KeyError] exactly when the tree number is already mapped, and
    then names nothing new; otherwise the tree number is afterwards mapped
    to the given descriptor, every other tree number is mapped as before,
    and [descriptor2treeno] is untouched. *)
Theorem add_descriptor_for_tree_no_once (self : MeSHOntology)
    (descriptor_id descriptor_heading tree_no : string) :
  match _add_descriptor_for_tree_no self descriptor_id descriptor_heading tree_no with
  | Return self' =>
      (exists e, get_descriptor_for_tree_no self tree_no = Raise e)
      /\ get_descriptor_for_tree_no self' tree_no
         = Return (descriptor_id, descriptor_heading)
      /\ (forall tn, tn <> tree_no ->
            get_descriptor_for_tree_no self' tn = get_descriptor_for_tree_no self tn)
      /\ descriptor2treeno self' = descriptor2treeno self
  | Raise e =>
      (exists msg, e = KeyError msg)
      /\ exists desc, get_descriptor_for_tree_no self tree_no = Return desc
  end.
Proof.
  unfold _add_descriptor_for_tree_no, get_descriptor_for_tree_no.
  destruct (dict_get (treeno2desc self) tree_no) as [[d_id d_heading]|] eqn:Hget.
  - split; eauto.
  - simpl. split; [eauto|]. split; [|split; [|done]].
    + rewrite dict_get_app, Hget. simpl. by rewrite String.eqb_refl.
    + intros tn Hne. rewrite dict_get_app. simpl.
      destruct (String.eqb_spec tree_no tn) as [->|_]; [done|].
      by destruct (dict_get (treeno2desc self) tn).
Qed.

(** ** The ontology index: building it *)

Lemma tree_nos_of_Some m descriptor_id tn :
  tn ∈ tree_nos_of m descriptor_id ->
  exists tns, m !! descriptor_id = Some tns /\ tn ∈ tns.
Proof.
  unfold tree_nos_of. destruct (m !! descriptor_id) as [tns|]; simpl.
  - eauto.
  - intros H. by apply not_elem_of_nil in H.
Qed.

Lemma add_tree_number_tree_nos self descriptor_id tn d_id :
  tree_nos_of (descriptor2treeno (_add_tree_number_for_descriptor self descriptor_id tn)) d_id
  = (tree_nos_of (descriptor2treeno self) d_id
       ++ if decide (d_id = descriptor_id) then [tn] else [])%list.
Proof.
  unfold tree_nos_of, _add_tree_number_for_descriptor. simpl.
  destruct (decide (d_id = descriptor_id)) as [->|Hne].
  - destruct (descriptor2treeno self !! descriptor_id) as [tns|] eqn:Hm;
      rewrite lookup_insert_eq; simpl; [done|]. done.
  - destruct (descriptor2treeno self !! descriptor_id) as [tns|] eqn:Hm;
      rewrite lookup_insert_ne by done; by rewrite app_nil_r.
Qed.

Lemma items_of_keys desc tns : (items_of desc tns).*1 = tns.
Proof.
  unfold items_of. rewrite <- list_fmap_compose. apply list_fmap_id.
Qed.

Lemma all_items_keys descs : (all_items descs).*1 = concat (tree_numbers <$> descs).
Proof.
  unfold all_items. induction descs as [|desc descs IH]; [done|].
  rewrite !fmap_cons. cbn [concat]. rewrite fmap_app, items_of_keys.
  f_equal. exact IH.
Qed.

Lemma index_tree_numbers_Return self desc tns self' :
  index_tree_numbers self desc tns = Return self' ->
  treeno2desc self' = (treeno2desc self ++ items_of desc tns)%list
  /\ (forall d_id,
        tree_nos_of (descriptor2treeno self') d_id
        = (tree_nos_of (descriptor2treeno self) d_id
             ++ if decide (d_id = unique_id desc) then tns else [])%list)
  /\ NoDup tns
  /\ (forall tn, tn ∈ tns -> tn ∉ (treeno2desc self).*1).
Proof.
  revert self. induction tns as [|tn tns IH]; intros self; simpl.
  - intros [= <-]. rewrite app_nil_r. split; [done|]. split.
    + intros d_id. by destruct (decide _); rewrite app_nil_r.
    + split; [constructor|]. intros tn H. by apply not_elem_of_nil in H.
  - unfold _add_descriptor_for_tree_no.
    destruct (dict_get (treeno2desc self) tn) as [[??]|] eqn:Hget; [done|].
    intros Hrun. apply IH in Hrun as (Hitems & Hnos & Hnd & Hfresh).
    assert (Hfresh' : forall x, x ∈ tns -> (x ∉ (treeno2desc self).*1) /\ x <> tn).
    { intros x Hx. specialize (Hfresh x Hx). simpl in Hfresh.
      rewrite fmap_app in Hfresh. simpl in Hfresh.
      split; intros H; apply Hfresh; apply elem_of_app.
      - by left.
      - right. rewrite H. by left. }
    split; [|split; [|split]].
    + rewrite Hitems. simpl. by rewrite <- app_assoc.
    + intros d_id. rewrite Hnos, add_tree_number_tree_nos. simpl.
      destruct (decide (d_id = unique_id desc)); by rewrite <- app_assoc.
    + apply NoDup_cons. split; [|done]. intros Hin.
      by destruct (Hfresh' _ Hin).
    + intros x Hx. apply elem_of_cons in Hx as [->|Hx].
      * by apply dict_get_None.
      * by destruct (Hfresh' _ Hx).
Qed.

Lemma index_tree_numbers_ok self desc tns :
  NoDup tns ->
  (forall tn, tn ∈ tns -> tn ∉ (treeno2desc self).*1) ->
  exists self', index_tree_numbers self desc tns = Return self'.
Proof.
  revert self. induction tns as [|tn tns IH]; intros self Hnd Hfresh; simpl.
  - eauto.
  - apply NoDup_cons in Hnd as [Hout Hnd].
    unfold _add_descriptor_for_tree_no.
    assert (dict_get (treeno2desc self) tn = None) as ->
      by (apply dict_get_None, Hfresh; by left).
    apply IH; [done|]. intros x Hx. simpl. rewrite fmap_app. simpl.
    intros Hin. apply elem_of_app in Hin as [Hin|Hin].
    + apply (Hfresh x); [by right|done].
    + apply list_elem_of_singleton in Hin as ->. done.
Qed.

Lemma index_tree_numbers_Raise self desc tns e :
  index_tree_numbers self desc tns = Raise e -> exists msg, e = KeyError msg.
Proof.
  revert self. induction tns as [|tn tns IH]; intros self; simpl; [done|].
  unfold _add_descriptor_for_tree_no.
  destruct (dict_get (treeno2desc self) tn) as [[??]|].
  - intros [= <-]. eauto.
  - apply IH.
Qed.

Lemma index_descriptors_Return self descs self' :
  index_descriptors self descs = Return self' ->
  treeno2desc self' = (treeno2desc self ++ all_items descs)%list
  /\ (forall d_id,
        tree_nos_of (descriptor2treeno self') d_id
        = (tree_nos_of (descriptor2treeno self) d_id
             ++ concat (tree_numbers <$> filter (fun desc => unique_id desc = d_id) descs))%list)
  /\ (NoDup (treeno2desc self).*1 -> NoDup (treeno2desc self').*1).
Proof.
  revert self. induction descs as [|desc descs IH]; intros self; simpl.
  - intros [= <-]. unfold all_items. simpl. rewrite app_nil_r.
    split; [done|]. split; [|done]. intros d_id. by rewrite app_nil_r.
  - destruct (index_tree_numbers self desc (tree_numbers desc)) as [self1|e] eqn:H1;
      [|done].
    apply index_tree_numbers_Return in H1 as (Hitems1 & Hnos1 & Hnd1 & Hfresh1).
    intros Hrun. apply IH in Hrun as (Hitems & Hnos & Hnd).
    split; [|split].
    + rewrite Hitems, Hitems1. unfold all_items. simpl. by rewrite <- app_assoc.
    + intros d_id. rewrite Hnos, Hnos1, filter_cons.
      destruct (decide (d_id = unique_id desc)) as [->|Hne].
      * rewrite decide_True by done. simpl. by rewrite <- app_assoc.
      * rewrite decide_False by done. by rewrite app_nil_r.
    + intros Hself. apply Hnd. rewrite Hitems1, fmap_app, items_of_keys.
      apply NoDup_app. split; [done|]. split; [|done].
      intros x Hx Hx'. by apply (Hfresh1 x).
Qed.

Lemma index_descriptors_ok self descs :
  NoDup ((treeno2desc self).*1 ++ concat (tree_numbers <$> descs)) ->
  exists self', index_descriptors self descs = Return self'.
Proof.
  revert self. induction descs as [|desc descs IH]; intros self Hnd; simpl.
  - eauto.
  - simpl in Hnd. apply NoDup_app in Hnd as (Hself & Hdisj & Hnd).
    apply NoDup_app in Hnd as (Hone & Hdisj' & Hrest).
    destruct (index_tree_numbers_ok self desc (tree_numbers desc)) as [self1 H1].
    { done. }
    { intros tn Htn Hin. apply (Hdisj tn Hin). apply elem_of_app. by left. }
    rewrite H1. apply index_tree_numbers_Return in H1 as (Hitems1 & _).
    apply IH. rewrite Hitems1, fmap_app, items_of_keys.
    apply NoDup_app. split; [|split; [|done]].
    + apply NoDup_app. split; [done|]. split; [|done].
      intros x Hx Hx'. apply (Hdisj x Hx). apply elem_of_app. by left.
    + intros x Hx Hx'. apply elem_of_app in Hx as [Hx|Hx].
      * apply (Hdisj x Hx). apply elem_of_app. by right.
      * by apply (Hdisj' x).
Qed.

Lemma index_descriptors_Raise self descs e :
  index_descriptors self descs = Raise e -> exists msg, e = KeyError msg.
Proof.
  revert self. induction descs as [|desc descs IH]; intros self; simpl; [done|].
  destruct (index_tree_numbers self desc (tree_numbers desc)) as [self1|e1] eqn:H1.
  - apply IH.
  - intros [= <-]. by eapply index_tree_numbers_Raise.
Qed.

(** X4: [__build_index_from_mesh] succeeds exactly when no tree number
    occurs twice among the descriptors; it then holds the tree numbers of
    the descriptors, in their order, and nothing of the old index.
    Otherwise it raises [KeyError]. *)
Theorem build_index_iff_distinct (self : MeSHOntology) (descs : list MeSHDescriptor) :
  match __build_index_from_mesh self descs with
  | Return self' =>
      NoDup (concat (tree_numbers <$> descs))
      /\ treeno2desc self' = all_items descs
  | Raise e =>
      ~ NoDup (concat (tree_numbers <$> descs))
      /\ exists msg, e = KeyError msg
  end.
Proof.
  unfold __build_index_from_mesh.
  destruct (index_descriptors (_clear_index self) descs) as [self'|e] eqn:Hrun.
  - apply index_descriptors_Return in Hrun as (Hitems & _ & Hnd). simpl in *.
    split; [|done]. rewrite <- all_items_keys, <- Hitems. apply Hnd. constructor.
  - split; [|by eapply index_descriptors_Raise].
    intros Hnd. destruct (index_descriptors_ok (_clear_index self) descs) as [? H'];
      [done|congruence].
Qed.

Lemma build_index_contents (self self' : MeSHOntology) (descs : list MeSHDescriptor) :
  __build_index_from_mesh self descs = Return self' ->
  NoDup (treeno2desc self').*1
  /\ (forall tn d, (tn, d) ∈ treeno2desc self' <->
        exists desc, desc ∈ descs /\ tn ∈ tree_numbers desc
                     /\ d = (unique_id desc, heading desc))
  /\ (forall tn d_id,
        tn ∈ tree_nos_of (descriptor2treeno self') d_id <->
        exists desc, desc ∈ descs /\ unique_id desc = d_id /\ tn ∈ tree_numbers desc).
Proof.
  unfold __build_index_from_mesh. intros Hrun.
  apply index_descriptors_Return in Hrun as (Hitems & Hnos & Hnd). simpl in *.
  specialize (Hnd (NoDup_nil_2 (A := string))).
  split; [done|]. split.
  - intros tn d. rewrite Hitems. unfold all_items.
    rewrite list_elem_of_In, in_concat. setoid_rewrite <- list_elem_of_In.
    split.
    + intros (items & Hitems' & Hd).
      apply list_elem_of_fmap in Hitems' as (desc & -> & Hdesc).
      apply list_elem_of_fmap in Hd as (tn' & [= -> ->] & Htn). eauto.
    + intros (desc & Hdesc & Htn & ->). exists (items_of desc (tree_numbers desc)).
      split; [apply list_elem_of_fmap; eauto|].
      apply list_elem_of_fmap. eauto.
  - intros tn d_id. rewrite Hnos. unfold tree_nos_of at 1. rewrite lookup_empty.
    simpl. rewrite list_elem_of_In, in_concat.
    setoid_rewrite <- list_elem_of_In. split.
    + intros (tns & Htns & Htn).
      apply list_elem_of_fmap in Htns as (desc & -> & Hdesc).
      apply list_elem_of_filter in Hdesc as [? ?]. eauto.
    + intros (desc & Hdesc & Hid & Htn). exists (tree_numbers desc).
      split; [|done]. apply list_elem_of_fmap. exists desc. split; [done|].
      by apply list_elem_of_filter.
Qed.

(** X5: what [__build_index_from_mesh] has filed can be looked up: for
    every tree number of every descriptor, [get_descriptor_for_tree_no]
    returns the descriptor's id and heading, and
    [get_tree_numbers_for_descriptor] lists the tree number under the
    descriptor's id; and a tree number that can be looked up is a tree
    number of one of the descriptors. *)
Theorem build_index_lookup (self self' : MeSHOntology) (descs : list MeSHDescriptor) :
  __build_index_from_mesh self descs = Return self' ->
  (forall desc tn,
      desc ∈ descs -> tn ∈ tree_numbers desc ->
      get_descriptor_for_tree_no self' tn = Return (unique_id desc, heading desc)
      /\ exists tns, get_tree_numbers_for_descriptor self' (unique_id desc) = Return tns
                     /\ tn ∈ tns)
  /\ (forall tn d_id d_heading,
        get_descriptor_for_tree_no self' tn = Return (d_id, d_heading) ->
        exists desc, desc ∈ descs /\ tn ∈ tree_numbers desc
                     /\ unique_id desc = d_id /\ heading desc = d_heading).
Proof.
  intros Hrun. apply build_index_contents in Hrun as (Hnd & Hin & Hmem).
  split.
  - intros desc tn Hdesc Htn. split.
    + unfold get_descriptor_for_tree_no.
      rewrite (dict_get_elem _ tn (unique_id desc, heading desc)); [done|done|].
      apply Hin. eauto.
    + unfold get_tree_numbers_for_descriptor.
      destruct (tree_nos_of_Some (descriptor2treeno self') (unique_id desc) tn)
        as (tns & -> & Htns); [|eauto].
      apply Hmem. eauto.
  - intros tn d_id d_heading. unfold get_descriptor_for_tree_no.
    destruct (dict_get (treeno2desc self') tn) as [d|] eqn:Hget; [|done].
    intros [= ->]. apply dict_get_Some_elem, Hin in Hget as (desc & ? & ? & [= -> ->]).
    eauto.
Qed.

Lemma index_consistent (self self' : MeSHOntology) (descs : list MeSHDescriptor) :
  __build_index_from_mesh self descs = Return self' -> consistent self'.
Proof.
  intros Hrun. apply build_index_contents in Hrun as (Hnd & Hin & Hmem).
  split.
  - done.
  - intros tn d_id d_heading Hel. apply Hin in Hel as (desc & ? & ? & [= -> ->]).
    apply Hmem. eauto.
  - intros d_id tn Hel. apply Hmem in Hel as (desc & ? & <- & ?).
    exists (heading desc). apply Hin. eauto.
Qed.

(** X6: after [__build_index_from_mesh] the two dictionaries agree: a
    tree number is mapped to a descriptor id exactly when it is listed
    under that id, and no tree number is mapped twice. *)
Theorem build_index_consistent (self self' : MeSHOntology) (descs : list MeSHDescriptor) :
  __build_index_from_mesh self descs = Return self' -> consistent self'.
Proof. apply index_consistent. Qed.

(** ** The ontology index: descriptors below a tree number *)

Lemma find_loop_spec tree_no items results visited :
  (forall d_id, d_id ∈ visited <-> d_id ∈ results.*1) ->
  NoDup results.*1 ->
  NoDup (find_loop tree_no items results visited).*1
  /\ (forall x, x ∈ results -> x ∈ find_loop tree_no items results visited)
  /\ (forall d_id d_heading,
        (d_id, d_heading) ∈ find_loop tree_no items results visited ->
        (d_id, d_heading) ∈ results
        \/ exists tn, (tn, (d_id, d_heading)) ∈ items
                      /\ String.prefix tree_no tn = true)
  /\ (forall tn d_id d_heading,
        (tn, (d_id, d_heading)) ∈ items -> String.prefix tree_no tn = true ->
        d_id ∈ (find_loop tree_no items results visited).*1).
Proof.
  revert results visited.
  induction items as [|[tn0 [id0 h0]] items IH]; intros results visited Hvis Hnd; simpl.
  - split; [done|]. split; [done|]. split; [by left|].
    intros ??? H. by apply not_elem_of_nil in H.
  - assert (Hskip :
      NoDup (find_loop tree_no items results visited).*1
      /\ (forall x, x ∈ results -> x ∈ find_loop tree_no items results visited)
      /\ (forall d_id d_heading,
            (d_id, d_heading) ∈ find_loop tree_no items results visited ->
            (d_id, d_heading) ∈ results
            \/ exists tn, (tn, (d_id, d_heading)) ∈ (tn0, (id0, h0)) :: items
                          /\ String.prefix tree_no tn = true)
      /\ (forall tn d_id d_heading,
            (tn, (d_id, d_heading)) ∈ items -> String.prefix tree_no tn = true ->
            d_id ∈ (find_loop tree_no items results visited).*1)).
    { destruct (IH results visited Hvis Hnd) as (H1 & H2 & H3 & H4).
      split; [done|]. split; [done|]. split; [|done].
      intros d_id d_heading Hin. destruct (H3 _ _ Hin) as [?|(tn & ? & ?)];
        [by left|]. right. exists tn. split; [by right|done]. }
    destruct Hskip as (S1 & S2 & S3 & S4).
    case_bool_decide as Hnew; unfold startswith;
      [destruct (String.prefix tree_no tn0) eqn:Hp|].
    + (* a new descriptor below [tree_no] *)
      destruct (IH (results ++ [(id0, h0)])%list ({[ id0 ]} ∪ visited)) as (H1 & H2 & H3 & H4).
      { intros d_id. rewrite fmap_app, elem_of_app, elem_of_union, elem_of_singleton.
        simpl. rewrite list_elem_of_singleton, Hvis. tauto. }
      { rewrite fmap_app. apply NoDup_app. split; [done|]. split.
        - intros x Hx Hx'. apply list_elem_of_singleton in Hx' as ->.
          apply Hnew. by apply Hvis.
        - apply NoDup_singleton. }
      split; [done|]. split; [|split].
      * intros x Hx. apply H2. apply elem_of_app. by left.
      * intros d_id d_heading Hin. destruct (H3 _ _ Hin) as [Hres|(tn & ? & ?)].
        -- apply elem_of_app in Hres as [?|Hres]; [by left|].
           apply list_elem_of_singleton in Hres as [= -> ->].
           right. exists tn0. split; [by left|done].
        -- right. exists tn. split; [by right|done].
      * intros tn d_id d_heading Hin Hpre.
        apply elem_of_cons in Hin as [[= -> -> ->]|Hin]; [|by eapply H4].
        apply list_elem_of_fmap. exists (id0, h0). split; [done|].
        apply H2. apply elem_of_app. right. by left.
    + split; [done|]. split; [done|]. split; [done|].
      intros tn d_id d_heading Hin Hpre.
      apply elem_of_cons in Hin as [[= -> -> ->]|Hin]; [congruence|by eapply S4].
    + split; [done|]. split; [done|]. split; [done|].
      intros tn d_id d_heading Hin Hpre.
      apply elem_of_cons in Hin as [[= -> -> ->]|Hin]; [|by eapply S4].
      assert (id0 ∈ results.*1) as Hold.
      { by apply Hvis. }
      apply list_elem_of_fmap in Hold as ([i h] & Hi & Hel). simpl in Hi. subst i.
      apply list_elem_of_fmap. exists (id0, h). split; [done|]. by apply S2.
Qed.

Lemma find_descriptors_spec (self : MeSHOntology) (tree_no : string) :
  let found := find_descriptors_start_with_tree_no self tree_no in
  NoDup found.*1
  /\ (forall d_id d_heading,
        (d_id, d_heading) ∈ found ->
        exists tn, (tn, (d_id, d_heading)) ∈ treeno2desc self
                   /\ String.prefix tree_no tn = true)
  /\ (forall tn d_id d_heading,
        (tn, (d_id, d_heading)) ∈ treeno2desc self ->
        String.prefix tree_no tn = true ->
        exists d_heading', (d_id, d_heading') ∈ found).
Proof.
  intros found. unfold found, find_descriptors_start_with_tree_no.
  destruct (find_loop_spec tree_no (treeno2desc self) [] ∅) as (H1 & _ & H3 & H4).
  { intros d_id. simpl. split; intros H.
    - by apply not_elem_of_empty in H.
    - by apply not_elem_of_nil in H. }
  { constructor. }
  split; [done|]. split.
  - intros d_id d_heading Hin. destruct (H3 _ _ Hin) as [Hnil|?]; [|done].
    by apply not_elem_of_nil in Hnil.
  - intros tn d_id d_heading Hin Hpre.
    specialize (H4 _ _ _ Hin Hpre).
    apply list_elem_of_fmap in H4 as ([i h] & Hi & Hel). simpl in Hi. subst i. eauto.
Qed.

(** X7: [find_descriptors_start_with_tree_no] lists every descriptor that
    has a tree number starting with [tree_no], each descriptor id once,
    and lists no other: each pair it returns is the id and heading filed
    under such a tree number. *)
Theorem find_descriptors_below (self : MeSHOntology) (tree_no : string) :
  let found := find_descriptors_start_with_tree_no self tree_no in
  NoDup found.*1
  /\ (forall d_id d_heading,
        (d_id, d_heading) ∈ found ->
        exists tn, (tn, (d_id, d_heading)) ∈ treeno2desc self
                   /\ String.prefix tree_no tn = true)
  /\ (forall tn d_id d_heading,
        (tn, (d_id, d_heading)) ∈ treeno2desc self ->
        String.prefix tree_no tn = true ->
        exists d_heading', (d_id, d_heading') ∈ found).
Proof. apply find_descriptors_spec. Qed.

(** ** The ontology index: what stands before a dot *)

Lemma append_assoc (a b c : string) : ((a ++ b) ++ c)%string = (a ++ b ++ c)%string.
Proof.
  induction a as [|x a IH]; [by rewrite !append_nil|].
  rewrite !append_cons. by f_equal.
Qed.

Lemma length_append (a b : string) :
  String.length (a ++ b)%string = (String.length a + String.length b)%nat.
Proof.
  induction a as [|x a IH]; [by rewrite append_nil|].
  rewrite append_cons. simpl. by f_equal.
Qed.

Lemma dot_prefix_cons a tn :
  dot_prefix a tn <-> exists rest, tn = (a ++ String (Ascii.ascii_of_nat 46) rest)%string.
Proof. reflexivity. Qed.

Lemma contains_dot_app a rest :
  contains_dot (a ++ String (Ascii.ascii_of_nat 46) rest)%string = true.
Proof.
  induction a as [|x a IH]; [done|].
  rewrite append_cons. simpl. rewrite IH. apply orb_true_r.
Qed.

Lemma rpartition_head_split tn :
  contains_dot tn = true -> dot_prefix (rpartition_head tn) tn.
Proof.
  rewrite dot_prefix_cons.
  induction tn as [|x tn IH]; simpl; [done|].
  destruct (contains_dot tn) eqn:Hdot.
  - intros _. destruct (IH eq_refl) as [tail Htail].
    exists tail. rewrite append_cons. by f_equal.
  - rewrite orb_false_r. intros Hx. apply Ascii.eqb_eq in Hx as ->.
    exists tn. by rewrite append_nil.
Qed.

Lemma split_at_dot tn a :
  dot_prefix a tn -> a = rpartition_head tn \/ dot_prefix a (rpartition_head tn).
Proof.
  rewrite !dot_prefix_cons. intros [rest ->].
  induction a as [|x a IH].
  - rewrite append_nil. simpl. destruct (contains_dot rest) eqn:Hdot.
    + right. exists (rpartition_head rest). by rewrite append_nil.
    + by left.
  - rewrite append_cons. simpl. rewrite contains_dot_app.
    destruct IH as [Heq|[rest' Hr]].
    + left. by f_equal.
    + right. exists rest'. rewrite Hr. by rewrite append_cons.
Qed.

Lemma dot_prefix_step a tn :
  dot_prefix a tn <->
  contains_dot tn = true
  /\ (a = rpartition_head tn \/ dot_prefix a (rpartition_head tn)).
Proof.
  split.
  - intros Ha. split; [|by apply split_at_dot].
    apply dot_prefix_cons in Ha as [rest ->]. apply contains_dot_app.
  - intros [Hdot [->|Ha]]; [by apply rpartition_head_split|].
    apply rpartition_head_split in Hdot. rewrite dot_prefix_cons in *.
    destruct Hdot as [tail Htail], Ha as [rest Hrest].
    exists (rest ++ String (Ascii.ascii_of_nat 46) tail)%string.
    rewrite Htail at 1. rewrite Hrest at 1.
    by rewrite append_assoc, append_cons.
Qed.

Lemma rpartition_head_shorter tn :
  contains_dot tn = true ->
  (String.length (rpartition_head tn) < String.length tn)%nat.
Proof.
  intros Hdot. apply rpartition_head_split, dot_prefix_cons in Hdot as [tail Htail].
  rewrite Htail at 2. rewrite length_append. simpl. lia.
Qed.

Lemma dot_prefix_prefix a tn : dot_prefix a tn -> String.prefix a tn = true.
Proof. intros [rest ->]. apply prefix_app. Qed.

(** The [while] loop, given at least as many rounds as [tn] is long: it
    ends before the rounds run out, having looked up everything that
    stands before a dot of [tn]. *)
Lemma super_while_spec fuel self tn acc :
  (String.length tn <= fuel)%nat ->
  match super_while fuel self tn acc with
  | Return found =>
      (forall a, dot_prefix a tn -> is_Some (dict_get (treeno2desc self) a))
      /\ (forall x, x ∈ found <->
            x ∈ acc \/ exists a, dot_prefix a tn /\ dict_get (treeno2desc self) a = Some x)
  | Raise e =>
      exists a, dot_prefix a tn /\ dict_get (treeno2desc self) a = None /\ e = KeyError a
  end.
Proof.
  revert tn acc. induction fuel as [|fuel IH]; intros tn acc Hlen.
  - destruct tn; [|simpl in Hlen; lia]. simpl.
    assert (forall a, ~ dot_prefix a "") as Hno.
    { intros a Ha. by apply dot_prefix_step in Ha as [? _]. }
    split; [intros a Ha; by destruct (Hno a)|].
    intros x. split; [by left|]. intros [?|(a & Ha & _)]; [done|by destruct (Hno a)].
  - simpl. destruct (contains_dot tn) eqn:Hdot.
    + pose proof (rpartition_head_shorter tn Hdot) as Hshort.
      destruct (dict_get (treeno2desc self) (rpartition_head tn)) as [desc|] eqn:Hget.
      * specialize (IH (rpartition_head tn) ({[ desc ]} ∪ acc)).
        destruct (super_while fuel self (rpartition_head tn) ({[ desc ]} ∪ acc))
          as [found|e].
        -- destruct IH as [Hall Hmem]; [lia|]. split.
           ++ intros a Ha. apply dot_prefix_step in Ha as [_ [->|Ha]]; [by eexists|].
              by apply Hall.
           ++ intros x. rewrite Hmem, elem_of_union, elem_of_singleton. split.
              ** intros [[->|?]|(a & Ha & Hx)].
                 --- right. exists (rpartition_head tn). split; [|done].
                     apply dot_prefix_step. auto.
                 --- by left.
                 --- right. exists a. split; [|done]. apply dot_prefix_step. auto.
              ** intros [?|(a & Ha & Hx)]; [by left; right|].
                 apply dot_prefix_step in Ha as [_ [->|Ha]].
                 --- left. left. congruence.
                 --- right. eauto.
        -- destruct IH as (a & Ha & Hnone & ->); [lia|].
           exists a. split; [|done]. apply dot_prefix_step. auto.
      * exists (rpartition_head tn). split; [|done]. apply dot_prefix_step. auto.
    + assert (forall a, ~ dot_prefix a tn) as Hno.
      { intros a Ha. apply dot_prefix_step in Ha as [? _]. congruence. }
      split; [intros a Ha; by destruct (Hno a)|].
      intros x. split; [by left|]. intros [?|(a & Ha & _)]; [done|by destruct (Hno a)].
Qed.

(** ** The ontology index: descriptors above and below a descriptor *)

Lemma super_loop_spec self tns acc :
  match super_loop self tns acc with
  | Return found =>
      (forall tn a, tn ∈ tns -> dot_prefix a tn ->
                    is_Some (dict_get (treeno2desc self) a))
      /\ (forall x, x ∈ found <->
            x ∈ acc \/ exists tn a, tn ∈ tns /\ dot_prefix a tn
                                    /\ dict_get (treeno2desc self) a = Some x)
  | Raise e =>
      exists tn a, tn ∈ tns /\ dot_prefix a tn
                   /\ dict_get (treeno2desc self) a = None /\ e = KeyError a
  end.
Proof.
  revert acc. induction tns as [|tn tns IH]; intros acc; simpl.
  - split.
    + intros tn a H. by apply not_elem_of_nil in H.
    + intros x. split; [by left|]. intros [?|(tn & a & H & _)]; [done|].
      by apply not_elem_of_nil in H.
  - pose proof (super_while_spec (String.length tn) self tn acc (Nat.le_refl _)) as Hw.
    destruct (super_while (String.length tn) self tn acc) as [found1|e].
    + destruct Hw as [Hall1 Hmem1]. specialize (IH found1).
      destruct (super_loop self tns found1) as [found|e].
      * destruct IH as [Hall Hmem]. split.
        -- intros tn' a Hin Ha. apply elem_of_cons in Hin as [->|Hin]; eauto.
        -- intros x. rewrite Hmem, Hmem1. split.
           ++ intros [[?|(a & Ha & Hx)]|(tn' & a & Hin & Ha & Hx)].
              ** by left.
              ** right. exists tn, a. split; [by left|done].
              ** right. exists tn', a. split; [by right|done].
           ++ intros [?|(tn' & a & Hin & Ha & Hx)]; [by left; left|].
              apply elem_of_cons in Hin as [->|Hin].
              ** left. right. eauto.
              ** right. eauto.
      * destruct IH as (tn' & a & Hin & Ha & Hnone & ->).
        exists tn', a. split; [by right|done].
    + destruct Hw as (a & Ha & Hnone & ->). exists tn, a. split; [by left|done].
Qed.

Lemma retrieve_superdescriptors_spec (self : MeSHOntology) (decriptor_id : string) :
  match retrieve_superdescriptors self decriptor_id with
  | Return found =>
      exists tree_nos,
        descriptor2treeno self !! decriptor_id = Some tree_nos
        /\ (forall tn a, tn ∈ tree_nos -> dot_prefix a tn ->
                         is_Some (dict_get (treeno2desc self) a))
        /\ (forall x, x ∈ found <->
              exists tn a, tn ∈ tree_nos /\ dot_prefix a tn
                           /\ get_descriptor_for_tree_no self a = Return x)
  | Raise e =>
      (descriptor2treeno self !! decriptor_id = None /\ e = KeyError decriptor_id)
      \/ exists tree_nos tn a,
           descriptor2treeno self !! decriptor_id = Some tree_nos
           /\ tn ∈ tree_nos /\ dot_prefix a tn
           /\ get_descriptor_for_tree_no self a = Raise (KeyError a)
           /\ e = KeyError a
  end.
Proof.
  unfold retrieve_superdescriptors, get_tree_numbers_for_descriptor,
    get_descriptor_for_tree_no.
  destruct (descriptor2treeno self !! decriptor_id) as [tree_nos|]; [|by left].
  pose proof (super_loop_spec self tree_nos ∅) as Hloop.
  destruct (super_loop self tree_nos ∅) as [found|e].
  - destruct Hloop as [Hall Hmem]. exists tree_nos. split; [done|]. split; [done|].
    intros x. rewrite Hmem. split.
    + intros [H|(tn & a & Hin & Ha & Hx)]; [by apply not_elem_of_empty in H|].
      exists tn, a. by rewrite Hx.
    + intros (tn & a & Hin & Ha & Hx). right. exists tn, a.
      split; [done|]. split; [done|].
      by destruct (dict_get (treeno2desc self) a) as [d|]; simplify_eq.
  - destruct Hloop as (tn & a & Hin & Ha & Hnone & ->). right.
    exists tree_nos, tn, a. by rewrite Hnone.
Qed.

(** X8: [retrieve_superdescriptors] returns the descriptors filed under
    what stands before each dot of each tree number of the descriptor
    (for C18.452.394: under C18.452 and under C18), and nothing else; it
    raises [KeyError] when the descriptor id is unknown or when one of
    these shorter tree numbers is not in the index. *)
Theorem superdescriptors_are_dot_prefixes (self : MeSHOntology) (decriptor_id : string) :
  match retrieve_superdescriptors self decriptor_id with
  | Return found =>
      exists tree_nos,
        descriptor2treeno self !! decriptor_id = Some tree_nos
        /\ (forall tn a, tn ∈ tree_nos -> dot_prefix a tn ->
                         is_Some (dict_get (treeno2desc self) a))
        /\ (forall x, x ∈ found <->
              exists tn a, tn ∈ tree_nos /\ dot_prefix a tn
                           /\ get_descriptor_for_tree_no self a = Return x)
  | Raise e =>
      (descriptor2treeno self !! decriptor_id = None /\ e = KeyError decriptor_id)
      \/ exists tree_nos tn a,
           descriptor2treeno self !! decriptor_id = Some tree_nos
           /\ tn ∈ tree_nos /\ dot_prefix a tn
           /\ get_descriptor_for_tree_no self a = Raise (KeyError a)
           /\ e = KeyError a
  end.
Proof. apply retrieve_superdescriptors_spec. Qed.

Lemma elem_of_foldl_add {A} `{Countable A} (l : list A) (acc : gset A) x :
  x ∈ foldl (fun acc res => {[ res ]} ∪ acc) acc l <-> x ∈ acc \/ x ∈ l.
Proof.
  revert acc. induction l as [|y l IH]; intros acc; simpl.
  - split; [by left|]. intros [?|Hx]; [done|]. by apply not_elem_of_nil in Hx.
  - rewrite IH, elem_of_union, elem_of_singleton, elem_of_cons. tauto.
Qed.

Lemma elem_of_foldl_add_each {A B} `{Countable A} (f : B -> list A) (l : list B)
    (acc : gset A) x :
  x ∈ foldl (fun acc t => foldl (fun acc res => {[ res ]} ∪ acc) acc (f t)) acc l
  <-> x ∈ acc \/ exists t, t ∈ l /\ x ∈ f t.
Proof.
  revert acc. induction l as [|t l IH]; intros acc; simpl.
  - split; [by left|]. intros [?|(t & Ht & _)]; [done|]. by apply not_elem_of_nil in Ht.
  - rewrite IH, elem_of_foldl_add. split.
    + intros [[?|?]|(t' & ? & ?)]; [by left| |].
      * right. exists t. split; [by left|done].
      * right. exists t'. split; [by right|done].
    + intros [?|(t' & Ht & ?)]; [by left; left|].
      apply elem_of_cons in Ht as [->|Ht]; [by left; right|]. right. eauto.
Qed.

Lemma retrieve_subdescriptors_spec (self : MeSHOntology) (decriptor_id : string) :
  consistent self ->
  match retrieve_subdescriptors self decriptor_id with
  | Return found =>
      is_Some (descriptor2treeno self !! decriptor_id)
      /\ (forall d_id d_heading,
            (d_id, d_heading) ∈ found ->
            exists t_n tn,
              t_n ∈ tree_nos_of (descriptor2treeno self) decriptor_id
              /\ tn ∈ tree_nos_of (descriptor2treeno self) d_id
              /\ String.prefix t_n tn = true
              /\ get_descriptor_for_tree_no self tn = Return (d_id, d_heading))
      /\ (forall d_id t_n tn,
            t_n ∈ tree_nos_of (descriptor2treeno self) decriptor_id ->
            tn ∈ tree_nos_of (descriptor2treeno self) d_id ->
            String.prefix t_n tn = true ->
            exists d_heading, (d_id, d_heading) ∈ found)
      /\ (forall t_n,
            t_n ∈ tree_nos_of (descriptor2treeno self) decriptor_id ->
            exists d_heading, (decriptor_id, d_heading) ∈ found)
  | Raise e =>
      descriptor2treeno self !! decriptor_id = None /\ e = KeyError decriptor_id
  end.
Proof.
  intros [Hkeys Hdesc Htree].
  unfold retrieve_subdescriptors, get_tree_numbers_for_descriptor, tree_nos_of.
  destruct (descriptor2treeno self !! decriptor_id) as [tree_nos|] eqn:Hl; [|done].
  simpl. split; [by eexists|].
  assert (Hbelow : forall d_id t_n tn,
            t_n ∈ tree_nos ->
            tn ∈ default [] (descriptor2treeno self !! d_id) ->
            String.prefix t_n tn = true ->
            exists d_heading,
              (d_id, d_heading)
              ∈ foldl (fun acc t =>
                         foldl (fun acc res => {[ res ]} ∪ acc) acc
                               (find_descriptors_start_with_tree_no self t))
                      (∅ : gset (string * string)) tree_nos).
  { intros d_id t_n tn Ht Htn Hpre.
    destruct (Htree d_id tn Htn) as [h Hel].
    destruct (find_descriptors_spec self t_n) as (_ & _ & Hall).
    destruct (Hall tn d_id h Hel Hpre) as [h' Hfound].
    exists h'. apply elem_of_foldl_add_each. right. eauto. }
  split; [|split].
  - intros d_id d_heading Hin.
    apply elem_of_foldl_add_each in Hin as [Hin|(t_n & Ht & Hin)];
      [by apply not_elem_of_empty in Hin|].
    destruct (find_descriptors_spec self t_n) as (_ & Hsound & _).
    destruct (Hsound _ _ Hin) as (tn & Hel & Hpre).
    exists t_n, tn. split; [done|]. split; [by eapply Hdesc|]. split; [done|].
    unfold get_descriptor_for_tree_no. by rewrite (dict_get_elem _ _ _ Hkeys Hel).
  - done.
  - intros t_n Ht. apply (Hbelow decriptor_id t_n t_n); [done| |apply prefix_refl].
    unfold tree_nos_of in *. by rewrite Hl.
Qed.

(** X9: on an index whose two dictionaries agree,
    [retrieve_subdescriptors] returns exactly the descriptors that have a
    tree number starting with a tree number of the given descriptor, each
    with a heading filed for it; in particular the descriptor itself, when
    it has a tree number.  It raises [KeyError] exactly for an unknown
    descriptor id. *)
Theorem subdescriptors_extend_tree_numbers (self : MeSHOntology) (decriptor_id : string) :
  consistent self ->
  match retrieve_subdescriptors self decriptor_id with
  | Return found =>
      is_Some (descriptor2treeno self !! decriptor_id)
      /\ (forall d_id d_heading,
            (d_id, d_heading) ∈ found ->
            exists t_n tn,
              t_n ∈ tree_nos_of (descriptor2treeno self) decriptor_id
              /\ tn ∈ tree_nos_of (descriptor2treeno self) d_id
              /\ String.prefix t_n tn = true
              /\ get_descriptor_for_tree_no self tn = Return (d_id, d_heading))
      /\ (forall d_id t_n tn,
            t_n ∈ tree_nos_of (descriptor2treeno self) decriptor_id ->
            tn ∈ tree_nos_of (descriptor2treeno self) d_id ->
            String.prefix t_n tn = true ->
            exists d_heading, (d_id, d_heading) ∈ found)
      /\ (forall t_n,
            t_n ∈ tree_nos_of (descriptor2treeno self) decriptor_id ->
            exists d_heading, (decriptor_id, d_heading) ∈ found)
  | Raise e =>
      descriptor2treeno self !! decriptor_id = None /\ e = KeyError decriptor_id
  end.
Proof. apply retrieve_subdescriptors_spec. Qed.

(** X10: above and below answer each other.  On an index whose two
    dictionaries agree, every descriptor that [retrieve_superdescriptors]
    returns for a descriptor has that descriptor among its
    [retrieve_subdescriptors]. *)
Theorem superdescriptor_has_subdescriptor (self : MeSHOntology)
    (decriptor_id a_id a_heading : string) (above : gset (string * string)) :
  consistent self ->
  retrieve_superdescriptors self decriptor_id = Return above ->
  (a_id, a_heading) ∈ above ->
  exists below d_heading,
    retrieve_subdescriptors self a_id = Return below
    /\ (decriptor_id, d_heading) ∈ below.
Proof.
  intros Hcons Hsup Hin.
  pose proof (retrieve_superdescriptors_spec self decriptor_id) as Hspec.
  rewrite Hsup in Hspec. destruct Hspec as (tree_nos & Hl & _ & Hmem).
  destruct (proj1 (Hmem _) Hin) as (tn & a & Htn & Ha & Hget).
  pose proof (retrieve_subdescriptors_spec self a_id Hcons) as Hsub.
  destruct Hcons as [Hkeys Hdesc Htree].
  assert (a ∈ tree_nos_of (descriptor2treeno self) a_id) as Ha_id.
  { apply (Hdesc a a_id a_heading). apply dict_get_Some_elem.
    unfold get_descriptor_for_tree_no in Hget.
    by destruct (dict_get (treeno2desc self) a); simplify_eq. }
  destruct (retrieve_subdescriptors self a_id) as [below|e].
  - destruct Hsub as (_ & _ & Hbelow & _).
    destruct (Hbelow decriptor_id a tn) as [h Hh]; [done| |by apply dot_prefix_prefix|eauto].
    unfold tree_nos_of. by rewrite Hl.
  - destruct Hsub as [Hnone _]. unfold tree_nos_of in Ha_id. rewrite Hnone in Ha_id.
    by apply not_elem_of_nil in Ha_id.
Qed.

(** ** The ontology index: entity types of a descriptor *)

Lemma tree_number_to_entity_type_cases tn :
  (typed tn /\ exists et ets, tree_number_to_entity_type tn = Return (et :: ets))
  \/ (~ typed tn /\ exists msg, tree_number_to_entity_type tn = Raise (KeyError msg)).
Proof.
  rewrite tree_number_to_entity_type_hits. unfold typed.
  destruct (matching tn MESH_TREE_TO_ENTITY_TYPE) as [|[tn' et] m]; simpl.
  - right. split; [by intros []|eauto].
  - left. split; [done|eauto].
Qed.

Lemma relevant_loop_filter tree_nos relevant :
  relevant_loop tree_nos relevant = Return (relevant ++ filter typed tree_nos)%list.
Proof.
  revert relevant. induction tree_nos as [|tn tree_nos IH]; intros relevant; simpl.
  - by rewrite app_nil_r.
  - rewrite filter_cons.
    destruct (tree_number_to_entity_type_cases tn)
      as [[Ht (et & ets & ->)]|[Ht (msg & ->)]].
    + rewrite decide_True by done. rewrite IH. by rewrite <- app_assoc.
    + rewrite decide_False by done. apply IH.
Qed.

Lemma ent_types_loop_spec tree_nos acc :
  exists found,
    ent_types_loop tree_nos acc = Return found
    /\ forall et, et ∈ found <->
         et ∈ acc \/ exists tn ets, tn ∈ tree_nos
                                    /\ tree_number_to_entity_type tn = Return ets
                                    /\ et ∈ ets.
Proof.
  revert acc. induction tree_nos as [|tn tree_nos IH]; intros acc; simpl.
  - exists acc. split; [done|]. intros et. split; [by left|].
    intros [?|(tn & ets & H & _)]; [done|]. by apply not_elem_of_nil in H.
  - destruct (tree_number_to_entity_type_cases tn)
      as [[Ht (et0 & ets0 & Hr)]|[Ht (msg & Hr)]]; rewrite Hr.
    + destruct (IH (foldl (fun acc et => {[ et ]} ∪ acc) acc (et0 :: ets0)))
        as (found & -> & Hmem).
      exists found. split; [done|]. intros et. rewrite Hmem, elem_of_foldl_add. split.
      * intros [[?|?]|(tn' & ets & ? & ? & ?)]; [by left| |].
        -- right. exists tn, (et0 :: ets0). split; [by left|done].
        -- right. exists tn', ets. split; [by right|done].
      * intros [?|(tn' & ets & Hin & Hr' & ?)]; [by left; left|].
        apply elem_of_cons in Hin as [->|Hin].
        -- left. right. congruence.
        -- right. eauto.
    + destruct (IH acc) as (found & -> & Hmem).
      exists found. split; [done|]. intros et. rewrite Hmem. split.
      * intros [?|(tn' & ets & ? & ? & ?)]; [by left|].
        right. exists tn', ets. split; [by right|done].
      * intros [?|(tn' & ets & Hin & Hr' & ?)]; [by left|].
        apply elem_of_cons in Hin as [->|Hin]; [congruence|]. right. eauto.
Qed.

(** X11: [get_entity_types_for_descriptor] and
    [get_tree_numbers_with_entity_type_for_descriptor] go together.  Either
    both raise [KeyError] (the descriptor id is unknown, or none of its
    tree numbers has an entity type), or both return: the tree numbers are
    those of the descriptor that have an entity type, in their order, and
    the entity types are exactly those of these tree numbers, each once. *)
Theorem entity_types_of_relevant_tree_numbers (self : MeSHOntology) (descriptor_id : string) :
  match get_entity_types_for_descriptor self descriptor_id,
        get_tree_numbers_with_entity_type_for_descriptor self descriptor_id with
  | Return ent_types, Return relevant =>
      NoDup ent_types
      /\ relevant <> []
      /\ (exists tree_nos,
            get_tree_numbers_for_descriptor self descriptor_id = Return tree_nos
            /\ relevant = filter typed tree_nos)
      /\ (forall et, et ∈ ent_types <->
            exists tn ets, tn ∈ relevant
                           /\ tree_number_to_entity_type tn = Return ets
                           /\ et ∈ ets)
  | Raise e, Raise e' => (exists msg, e = KeyError msg) /\ (exists msg, e' = KeyError msg)
  | _, _ => False
  end.
Proof.
  unfold get_entity_types_for_descriptor, get_tree_numbers_with_entity_type_for_descriptor,
    get_tree_numbers_for_descriptor.
  destruct (descriptor2treeno self !! descriptor_id) as [tree_nos|]; [|split; eauto].
  rewrite relevant_loop_filter, app_nil_l.
  destruct (ent_types_loop_spec tree_nos ∅) as (found & -> & Hmem).
  assert (Hiff : forall et, et ∈ found <->
            exists tn ets, tn ∈ filter typed tree_nos
                           /\ tree_number_to_entity_type tn = Return ets /\ et ∈ ets).
  { intros et. rewrite Hmem. split.
    - intros [H|(tn & ets & Hin & Hr & Het)]; [by apply not_elem_of_empty in H|].
      exists tn, ets. split; [|done]. apply list_elem_of_filter. split; [|done].
      destruct (tree_number_to_entity_type_cases tn) as [[? _]|[_ (msg & Hr')]];
        [done|congruence].
    - intros (tn & ets & Hin & Hr & Het). right. exists tn, ets.
      apply list_elem_of_filter in Hin as [_ Hin]. done. }
  destruct (Nat.eqb_spec (size found) 0) as [Hz|Hnz].
  - apply size_empty_iff in Hz.
    destruct (filter typed tree_nos) as [|tn rel] eqn:Hrel; [split; eauto|].
    exfalso. assert (tn ∈ filter typed tree_nos) as Hin by (rewrite Hrel; left).
    pose proof Hin as Hin'. apply list_elem_of_filter in Hin' as [Ht _].
    destruct (tree_number_to_entity_type_cases tn)
      as [[_ (et & ets & Hr)]|[Hno _]]; [|done].
    assert (et ∈ found) as Het.
    { apply Hiff. exists tn, (et :: ets). split; [left|]. split; [done|left]. }
    by apply Hz in Het.
  - destruct (filter typed tree_nos) as [|tn rel] eqn:Hrel.
    + apply Hnz. apply size_empty_iff, elem_of_equiv_empty. intros et Het.
      apply Hiff in Het as (tn & ? & Hin & _). by apply not_elem_of_nil in Hin.
    + split; [apply NoDup_elements|]. split; [done|]. split; [by exists tree_nos|].
      intros et. rewrite elem_of_elements. apply Hiff.
Qed.

(** ** The work set, the tasks and the next run *)

Lemma load_document_ids_database args env fs :
  truthy (input args) = false ->
  load_document_ids args env fs
  = (false,
     if force_tag_all args
     then get_document_ids_for_collection env
     else get_document_ids_for_collection env ∖ already_tagged env,
     get_document_ids_for_collection env).
Proof.
  unfold load_document_ids. intros ->. destruct (force_tag_all args); simpl; [done|].
  unfold get_untagged_doc_ids_by_tagger. by rewrite union_empty_l_L.
Qed.

Lemma load_document_ids_file args env fs :
  truthy (input args) = true ->
  (load_document_ids args env fs).1.2 ⊆
    get_document_ids env (default ""%string (input args)) ∖ already_tagged env.
Proof.
  unfold load_document_ids. intros ->. simpl.
  unfold find_untagged_ids, get_untagged_doc_ids_by_tagger.
  destruct (negb _); [apply empty_subseteq|]. by rewrite union_empty_l_L.
Qed.

Lemma finalize_record_ids args env r c :
  document_id <$> run_records (finalize args env r c)
  = elements (document_ids r ∩ document_ids_in_db r).
Proof. apply add_doc_tagged_by_infos_ids. Qed.

Lemma prepare_database args env r :
  prepare args env = inr r ->
  truthy (input args) = false ->
  document_ids r
  = (if force_tag_all args
     then get_document_ids_for_collection env
     else get_document_ids_for_collection env ∖ already_tagged env)
  /\ document_ids_in_db r = get_document_ids_for_collection env.
Proof.
  intros Hprep Hfile.
  destruct (prepare_ready _ _ _ Hprep) as (fs & _ & _ & _ & Hload & _).
  rewrite (load_document_ids_database args env fs Hfile) in Hload.
  injection Hload as _ Hids Hdb. by rewrite <- Hids, <- Hdb.
Qed.

Lemma prepare_file args env r :
  prepare args env = inr r ->
  truthy (input args) = true ->
  document_ids r
    ⊆ get_document_ids env (default ""%string (input args)) ∖ already_tagged env.
Proof.
  intros Hprep Hfile.
  destruct (prepare_ready _ _ _ Hprep) as (fs & _ & _ & _ & Hload & _).
  pose proof (load_document_ids_file args env fs Hfile) as Hsub.
  by rewrite Hload in Hsub.
Qed.

(** X12: every task of a run is a document of the work set that has
    content; it is not an already tagged document unless the run reads
    the database with the force flag set; and without an input file it is
    a document of the collection. *)
Theorem tasks_within_work_set (args : Args) (env : Env) (r : Ready) (d : TaggedDocument) :
  prepare args env = inr r ->
  d ∈ main_tasks args env r ->
  doc_id d ∈ document_ids r
  /\ has_content d = true
  /\ (truthy (input args) = true \/ force_tag_all args = false ->
      doc_id d ∉ already_tagged env)
  /\ (truthy (input args) = false ->
      doc_id d ∈ get_document_ids_for_collection env).
Proof.
  intros Hprep Hd. apply elem_of_generate_tasks in Hd as [[Hwork Hcontent] _].
  split; [done|]. split; [done|].
  destruct (truthy (input args)) eqn:Hfile.
  - pose proof (prepare_file _ _ _ Hprep Hfile) as Hsub.
    apply Hsub, elem_of_difference in Hwork as [_ Hnew]. split; [done|]. done.
  - destruct (prepare_database _ _ _ Hprep Hfile) as [Hids _].
    rewrite Hids in Hwork. split.
    + intros [?|Hforce]; [done|]. rewrite Hforce in Hwork.
      by apply elem_of_difference in Hwork as [_ ?].
    + intros _. destruct (force_tag_all args); [done|].
      by apply elem_of_difference in Hwork as [? _].
Qed.

(** X13: a run that reads the database and returns writes a row for
    every id of its work set, nothing more: also for the documents that
    had no content and were never made a task. *)
Theorem database_run_records_work_set (args : Args) (env : Env) (o : Outcome) :
  main args env o ->
  exit_status o = Returned ->
  truthy (input args) = false ->
  exists r,
    prepare args env = inr r
    /\ forall i, i ∈ document_id <$> run_records o <-> i ∈ document_ids r.
Proof.
  intros Hmain Hret Hfile.
  destruct (main_returned _ _ _ Hmain Hret) as (r & p & Hprep & _ & ->).
  exists r. split; [done|]. intros i.
  rewrite finalize_record_ids, elem_of_elements, elem_of_intersection.
  destruct (prepare_database _ _ _ Hprep Hfile) as [Hids Hdb].
  rewrite Hids, Hdb. destruct (force_tag_all args); [tauto|].
  rewrite elem_of_difference. tauto.
Qed.


(** ** What the consumer has inserted at shutdown *)

Lemma accepted_consume_kept db tags c :
  accepted (metatag (consume_task db tags c)) = (accepted (metatag c) ++ kept db tags)%list.
Proof.
  rewrite accepted_consume_task. destruct tags as [|tag0 rest].
  - simpl. by rewrite app_nil_r.
  - rewrite consume_buffer_cons. unfold kept. case_bool_decide.
    + apply accepted_base_insert.
    + by rewrite app_nil_r.
Qed.

Lemma accepted_foldl_consume db results c :
  accepted (metatag (foldl (fun c tags => consume_task db tags c) c results))
  = (accepted (metatag c) ++ concat (kept db <$> results))%list.
Proof.
  revert c. induction results as [|tags results IH]; intros c.
  - simpl. by rewrite app_nil_r.
  - rewrite fmap_cons. cbn [foldl concat].
    rewrite IH, accepted_consume_kept. by rewrite <- app_assoc.
Qed.

(** X15: no tag is lost and none is inserted twice.  When the consumer
    has taken any results, in any order, and has shut down, the batches
    inserted into the tag table hold, in order, the tags of every
    non-empty result whose first tag names a document of the database,
    and the buffer is empty. *)
Theorem shutdown_has_inserted_kept_tags (document_ids_in_db : gset Z)
    (results : list (list TaggedEntity)) :
  let c := shutdown_consumer
             (foldl (fun c tags => consume_task document_ids_in_db tags c)
                    new_consumer results) in
  partial_tag_inserts (metatag c) = []
  /\ concat (tag_table (metatag c)) = concat (kept document_ids_in_db <$> results).
Proof.
  intros c. split; [done|].
  pose proof (accepted_foldl_consume document_ids_in_db results new_consumer) as Hacc.
  unfold c, shutdown_consumer. simpl.
  rewrite concat_app. simpl. rewrite app_nil_r. exact Hacc.
Qed.

(** ** The working directory and the paths beside it *)





(** X17: the prompt.  When the directory given with [--workdir] exists,
    [--yes_force] is not set and the answer typed is none of y, Y, j, J,
    yes, Yes, [main] ends with [exit(0)] and has deleted and created
    nothing. *)
Theorem declined_prompt_aborts (args : Args) (env : Env) (o : Outcome) :
  truthy (workdir args) = true ->
  working_directory args env ∈ paths env ->
  yes_force args = false ->
  typed_answer env ∉ yes_answers ->
  main args env o <->
  o = {| exit_status := SysExit 0;
         paths_after := paths env;
         tagger_initialised := false;
         tag_batches := [];
         progress_counter := None;
         run_records := [] |}.
Proof.
  intros Hgiven Hexists Hforce Hanswer.
  assert (Hprep : prepare args env
                  = inl (mkOutcome (SysExit 0) (paths env) false [] None [])).
  { unfold prepare, create_directories.
    unfold working_directory in Hexists. rewrite Hgiven in *.
    rewrite (bool_decide_eq_true_2 _ Hexists), Hforce,
      (bool_decide_eq_false_2 _ Hanswer). done. }
  split.
  - intros [o' Hstop|r p Hgo _]; congruence.
  - intros ->. by apply main_stops.
Qed.

(** ** The properties above, on examples *)

(** The source's own example: above C18.452.394.750 stand C18.452.394,
    C18.452 and C18. *)
Example dot_prefixes_of_C18 :
  dot_prefix "C18.452.394" "C18.452.394.750"
  /\ dot_prefix "C18.452" "C18.452.394.750"
  /\ dot_prefix "C18" "C18.452.394.750"
  /\ rpartition_head "C18.452.394.750" = "C18.452.394"%string.
Proof.
  split; [by exists "750"%string|]. split; [by exists "394.750"%string|].
  split; [by exists "452.394.750"%string|]. reflexivity.
Qed.

Lemma chain_build :
  __build_index_from_mesh (mkMeSHOntology [] ∅) chain_descs = Return chain_index.
Proof. vm_compute. reflexivity. Qed.

Lemma chain_consistent : consistent chain_index.
Proof. exact (index_consistent _ _ _ chain_build). Qed.

(** E02.319.300 keeps the entity types of E. *)
Lemma entity_types_inherited_witness :
  String.prefix "E" "E02.319.300" = true
  /\ tree_number_to_entity_type "E" = Return [METHOD; LAB_METHOD; DOSAGE_FORM]
  /\ exists l', tree_number_to_entity_type "E02.319.300" = Return l'
                /\ [METHOD; LAB_METHOD; DOSAGE_FORM] `sublist_of` l'.
Proof.
  assert (Hp : String.prefix "E" "E02.319.300" = true) by reflexivity.
  assert (Hr : tree_number_to_entity_type "E" = Return [METHOD; LAB_METHOD; DOSAGE_FORM])
    by reflexivity.
  split; [exact Hp|]. split; [exact Hr|].
  exact (entity_types_inherited _ _ _ Hp Hr).
Defined.

(** C04 is a disease, in the tree named Diseases. *)
Lemma classified_tree_is_named_witness :
  tree_number_to_entity_type "C04" = Return [DISEASE]
  /\ exists c rest name,
       "C04"%string = String c rest
       /\ get_name_for_tree (String c EmptyString) = Return name.
Proof.
  assert (Hr : tree_number_to_entity_type "C04" = Return [DISEASE]) by reflexivity.
  split; [exact Hr|]. exact (classified_tree_is_named _ _ Hr).
Defined.

(** The chain of three descriptors: each tree number is found again. *)
Lemma build_index_lookup_witness :
  __build_index_from_mesh (mkMeSHOntology [] ∅) chain_descs = Return chain_index
  /\ forall desc tn,
       desc ∈ chain_descs -> tn ∈ tree_numbers desc ->
       get_descriptor_for_tree_no chain_index tn = Return (unique_id desc, heading desc)
       /\ exists tns, get_tree_numbers_for_descriptor chain_index (unique_id desc)
                      = Return tns /\ tn ∈ tns.
Proof.
  split; [exact chain_build|].
  exact (proj1 (build_index_lookup _ _ _ chain_build)).
Defined.

Lemma build_index_consistent_witness :
  __build_index_from_mesh (mkMeSHOntology [] ∅) chain_descs = Return chain_index
  /\ consistent chain_index.
Proof.
  split; [exact chain_build|]. exact (build_index_consistent _ _ _ chain_build).
Defined.

Lemma returns_with {A} `{Countable A} (r : result (gset A)) (x : A) :
  match r with Return s => bool_decide (x ∈ s) | Raise _ => false end = true ->
  exists s, r = Return s /\ x ∈ s.
Proof.
  destruct r as [s|e]; [|done]. intros Hx. exists s. split; [done|].
  by apply bool_decide_eq_true in Hx.
Qed.

(** The top of the chain is among the descriptors below it. *)
Lemma subdescriptors_extend_tree_numbers_witness :
  consistent chain_index
  /\ "C18"%string ∈ tree_nos_of (descriptor2treeno chain_index) "D009750"
  /\ match retrieve_subdescriptors chain_index "D009750" with
     | Return found => exists d_heading, ("D009750"%string, d_heading) ∈ found
     | Raise _ => False
     end.
Proof.
  assert (Htn : "C18"%string ∈ tree_nos_of (descriptor2treeno chain_index) "D009750").
  { vm_compute. left. }
  split; [exact chain_consistent|]. split; [exact Htn|].
  pose proof (subdescriptors_extend_tree_numbers chain_index "D009750" chain_consistent)
    as Hsub.
  destruct (retrieve_subdescriptors chain_index "D009750") as [found|e].
  - exact (proj2 (proj2 (proj2 Hsub)) _ Htn).
  - destruct Hsub as [Hnone _]. vm_compute in Hnone. discriminate Hnone.
Defined.

(** The bottom of the chain is below the descriptor at its top. *)
Lemma superdescriptor_has_subdescriptor_witness :
  consistent chain_index
  /\ exists above,
       retrieve_superdescriptors chain_index "D002239" = Return above
       /\ ("D009750"%string, "Nutritional and Metabolic Diseases"%string) ∈ above
       /\ exists below d_heading,
            retrieve_subdescriptors chain_index "D009750" = Return below
            /\ ("D002239"%string, d_heading) ∈ below.
Proof.
  split; [exact chain_consistent|].
  destruct (returns_with (retrieve_superdescriptors chain_index "D002239")
              ("D009750"%string, "Nutritional and Metabolic Diseases"%string))
    as (above & Hsup & Hin); [vm_compute; reflexivity|].
  exists above. split; [exact Hsup|]. split; [exact Hin|].
  exact (superdescriptor_has_subdescriptor _ _ _ _ _ chain_consistent Hsup Hin).
Defined.

(** CORPUS1: the three tasks are the three documents of the work set. *)
Lemma tasks_within_work_set_witness :
  prepare corpus1_args corpus1_env = inr corpus1_ready
  /\ mkTaggedDocument 2 true [] ∈ main_tasks corpus1_args corpus1_env corpus1_ready
  /\ 2 ∈ document_ids corpus1_ready
  /\ 2 ∉ already_tagged corpus1_env.
Proof.
  assert (Hd : mkTaggedDocument 2 true []
               ∈ main_tasks corpus1_args corpus1_env corpus1_ready).
  { apply elem_of_generate_tasks. split; [split; [|reflexivity]|].
    - vm_compute. reflexivity.
    - right. left. }
  pose proof (tasks_within_work_set _ _ _ _ corpus1_prepare Hd) as (H1 & _ & H3 & _).
  split; [exact corpus1_prepare|]. split; [exact Hd|]. split; [exact H1|].
  exact (H3 (or_intror eq_refl)).
Defined.

(** CORPUS1: the rows are those of documents 1, 2 and 3. *)
Lemma database_run_records_work_set_witness :
  main corpus1_args corpus1_env corpus1_outcome
  /\ exists r,
       prepare corpus1_args corpus1_env = inr r
       /\ forall i, i ∈ document_id <$> run_records corpus1_outcome <-> i ∈ document_ids r.
Proof.
  split; [exact corpus1_main|].
  exact (database_run_records_work_set _ _ _ corpus1_main eq_refl eq_refl).
Defined.




(** The prompt answered "n": the old files of /work are still there. *)
Lemma declined_prompt_aborts_witness :
  (typed_answer declined_env ∉ yes_answers)
  /\ main declined_args declined_env
       {| exit_status := SysExit 0;
          paths_after := paths declined_env;
          tagger_initialised := false;
          tag_batches := [];
          progress_counter := None;
          run_records := [] |}.
Proof.
  assert (Hexists : working_directory declined_args declined_env ∈ paths declined_env)
    by (vm_compute; reflexivity).
  assert (Hanswer : typed_answer declined_env ∉ yes_answers).
  { apply (proj1 (bool_decide_eq_false _)). vm_compute. reflexivity. }
  split; [exact Hanswer|].
  exact (proj2 (declined_prompt_aborts declined_args declined_env _
                  eq_refl Hexists eq_refl Hanswer) eq_refl).
Defined.
